(** * TaskFlow task store: a shallow embedding of [src/stores/taskStore.ts]

    The store keeps a list of tasks in memory, mirrors it into one slot of
    the browser's local storage after every successful mutation, and offers
    two derived reads (statistics and filtered views).  The embedding
    follows the TypeScript source function by function:

    - JavaScript strings are sequences of UTF-16 code units ([list N]);
    - the values that [LocalStorage.getItem] hands back are JSON-decoded
      JavaScript values ([Value]);
    - the store's operations live in a small reader/state/exception monad
      [M]: the reader part ([Env]) holds what the host decides (clock,
      random generator, storage failures), the state part ([Store]) holds
      the task list, the persisted slot and a chronological log of the
      observable effects (console output, notifications, storage calls),
      and the exception part models [throw] and [try]/[catch]. *)

From Stdlib Require Import String Ascii DecimalString DecimalPos DecimalZ.
From stdpp Require Import base option numbers list.

Local Open Scope N_scope.

(** ** Strings *)

(** A JavaScript string: a sequence of UTF-16 code units. *)
Abbreviation jsstring := (list N).

(** String literals of the source, written as Rocq strings. *)
Definition js (s : string) : jsstring :=
  N_of_ascii <$> list_ascii_of_string s.

(** The code unit of the double quote, used by the template literals. *)
Definition dquote : jsstring := [34].

(** ECMAScript [WhiteSpace] and [LineTerminator] code points, the
    characters [String.prototype.trim] strips. *)
Definition isWhiteSpace (c : N) : bool :=
  bool_decide (c ∈ [ 9; 10; 11; 12; 13; 32; 160; 5760
                   ; 8192; 8193; 8194; 8195; 8196; 8197; 8198; 8199; 8200
                   ; 8201; 8202; 8232; 8233; 8239; 8287; 12288; 65279 ]).

Fixpoint trimStart (s : jsstring) : jsstring :=
  match s with
  | c :: s' => if isWhiteSpace c then trimStart s' else s
  | [] => []
  end.

Definition trimEnd (s : jsstring) : jsstring :=
  reverse (trimStart (reverse s)).

(** [String.prototype.trim]. *)
Definition trim (s : jsstring) : jsstring := trimEnd (trimStart s).

(** [String.prototype.substring(start, end)] for [start <= end]. *)
Definition substring (from to : nat) (s : jsstring) : jsstring :=
  take (to - from) (drop from s).

(** [!s] on a string: only the empty string is falsy. *)
Definition not_string (s : jsstring) : bool :=
  match s with [] => true | _ :: _ => false end.

(** A template-literal interpolation of an integral number such as
    [Date.now()]: its decimal digits. *)
Definition number_to_string (n : Z) : jsstring :=
  js (NilZero.string_of_int (Z.to_int n)).

Local Close Scope N_scope.

(** ** Data model ([src/types/task.ts]) *)

Record Task := mkTask {
  id : jsstring;
  text : jsstring;
  completed : bool;
  createdAt : Z;
}.

Module TaskFilter.
Inductive t := all | completed | pending.
End TaskFilter.

Module TaskStats.
Record t := mk { total : nat; completed : nat; pending : nat }.
End TaskStats.

(** ** JSON-decoded values, as [LocalStorage.getItem] returns them *)

(** Numbers carry an integer: [Date.now()] is integral, and the
    validation below looks at the type tag only. Fractions and the
    non-finite numbers (the text [1e999] decodes to [Infinity], which a
    later write turns into [null]) have no counterpart here. An object is
    its list of own properties. *)
#[local] Set Warnings "-register-all".
Inductive Value :=
| VNull
| VBool (b : bool)
| VNumber (n : Z)
| VString (s : jsstring)
| VArray (items : list Value)
| VObject (props : list (jsstring * Value)).

Inductive JsType := TyUndefined | TyObject | TyBoolean | TyNumber | TyString.

Global Instance JsType_eq_dec : EqDecision JsType.
Proof. solve_decision. Defined.

(** [typeof v]; [None] stands for [undefined]. *)
Definition typeof (v : option Value) : JsType :=
  match v with
  | None => TyUndefined
  | Some VNull => TyObject
  | Some (VBool _) => TyBoolean
  | Some (VNumber _) => TyNumber
  | Some (VString _) => TyString
  | Some (VArray _) => TyObject
  | Some (VObject _) => TyObject
  end.

(** Property read [item.key] for the four keys the store uses. Only a
    plain object can own them; on every other non-null value the read is
    [undefined]. (On [null] the read would throw, but the source guards it
    with [item !== null].) *)
Definition get_prop (item : Value) (key : jsstring) : option Value :=
  match item with
  | VObject props =>
      match list_find (λ p : jsstring * Value, p.1 = key) props with
      | Some (_, (_, v)) => Some v
      | None => None
      end
  | _ => None
  end.

Definition is_null (v : Value) : bool :=
  match v with VNull => true | _ => false end.

(** The callback of [data.every] in [isValidTaskArray]. *)
Definition isValidTask (item : Value) : bool :=
  bool_decide (typeof (Some item) = TyObject) &&
  negb (is_null item) &&
  bool_decide (typeof (get_prop item (js "id")) = TyString) &&
  bool_decide (typeof (get_prop item (js "text")) = TyString) &&
  bool_decide (typeof (get_prop item (js "completed")) = TyBoolean) &&
  bool_decide (typeof (get_prop item (js "createdAt")) = TyNumber).

Definition isValidTaskArray (data : Value) : bool :=
  match data with
  | VArray items => forallb isValidTask items
  | _ => false
  end.

(** The type guard [data is Task[]]: reading a validated value at the
    [Task] interface. The source hands on the stored array itself, so a
    property beyond the four of the interface stays on the object in
    memory; [Task] does not represent it. *)
Definition as_task (item : Value) : option Task :=
  match get_prop item (js "id"), get_prop item (js "text"),
        get_prop item (js "completed"), get_prop item (js "createdAt") with
  | Some (VString i), Some (VString t), Some (VBool c), Some (VNumber n) =>
      Some (mkTask i t c n)
  | _, _, _, _ => None
  end.

Definition as_tasks (data : Value) : list Task :=
  match data with
  | VArray items => omap as_task items
  | _ => []
  end.

(** What [LocalStorage.set] serialises for one task and for the list. *)
Definition task_to_value (t : Task) : Value :=
  VObject [ (js "id", VString (id t)); (js "text", VString (text t))
          ; (js "completed", VBool (completed t))
          ; (js "createdAt", VNumber (createdAt t)) ].

Definition tasks_to_value (ts : list Task) : Value :=
  VArray (task_to_value <$> ts).

(** ** The store, its host and its effects *)

(** The persistence layer and the notifier are Quasar's [LocalStorage] and
    [Notify], an external library: [getItem] returns the decoded value or
    [null], [set] overwrites the slot, [remove] clears it, and a read or a
    write may throw. *)

(** What a [throw] carries: an [Error] built by the store itself, or an
    exception raised by the host (for instance a [QuotaExceededError]). *)
Inductive Thrown :=
| Error (message : jsstring)
| HostException (name : jsstring).

(** The argument of [Notify.create]. *)
Record Notification := mkNotification {
  type : jsstring;
  message : jsstring;
  icon : jsstring;
}.

(** Observable effects, logged in the order they happen. The two
    storage entries record the calls that touch the persisted slot. *)
Inductive Effect :=
| ConsoleWarn (msg : jsstring)
| ConsoleError (msg : jsstring) (error : Thrown)
| NotifyCreate (n : Notification)
| StorageSet (v : Value)
| StorageRemove.

(** [localStorage] is the value held under [STORAGE_KEY], [None] when the
    key is absent. *)
Record Store := mkStore {
  tasks : list Task;
  localStorage : option Value;
  log : list Effect;
}.

(** What the host decides during one call of a store operation: the two
    readings of [Date.now()] in [addTask] (the first inside [generateId]),
    the text of [Math.random().toString(36)], and whether the storage
    layer throws on a read or on a write. *)
Record Env := mkEnv {
  now_generateId : Z;
  random_base36 : jsstring;
  now_createdAt : Z;
  getItem_throws : option Thrown;
  set_throws : option Thrown;
}.

Inductive Completion (A : Type) :=
| Return (a : A)
| Throw (e : Thrown).
Arguments Return {A} a.
Arguments Throw {A} e.

Definition M (A : Type) : Type := Env -> Store -> Completion A * Store.

Definition ret {A} (a : A) : M A := fun _ s => (Return a, s).

Definition bind {A B} (m : M A) (k : A -> M B) : M B :=
  fun env s =>
    match m env s with
    | (Return a, s') => k a env s'
    | (Throw e, s') => (Throw e, s')
    end.

Definition throw {A} (e : Thrown) : M A := fun _ s => (Throw e, s).

(** [try { body } catch (error) { handler }] *)
Definition try_catch {A} (body : M A) (handler : Thrown -> M A) : M A :=
  fun env s =>
    match body env s with
    | (Return a, s') => (Return a, s')
    | (Throw e, s') => handler e env s'
    end.

Declare Scope store_scope.
Delimit Scope store_scope with store.
Notation "x <- m ;; k" := (bind m (fun x => k))
  (at level 100, m at next level, right associativity) : store_scope.
Notation "m ;; k" := (bind m (fun _ => k))
  (at level 100, right associativity) : store_scope.
Local Open Scope store_scope.

Definition ask : M Env := fun env s => (Return env, s).

Definition read_tasks : M (list Task) := fun _ s => (Return (tasks s), s).

Definition write_tasks (ts : list Task) : M unit :=
  fun _ s => (Return tt, mkStore ts (localStorage s) (log s)).

Definition emit (e : Effect) : M unit :=
  fun _ s => (Return tt, mkStore (tasks s) (localStorage s) (log s ++ [e])).

Definition console_warn (msg : jsstring) : M unit := emit (ConsoleWarn msg).

Definition console_error (msg : jsstring) (error : Thrown) : M unit :=
  emit (ConsoleError msg error).

Definition Notify_create (n : Notification) : M unit := emit (NotifyCreate n).

(** What [getItem] hands back for the slot: the decoded value, [null]
    when the key is absent. *)
Definition stored_value (slot : option Value) : Value :=
  match slot with
  | Some v => v
  | None => VNull
  end.

(** [LocalStorage.getItem(STORAGE_KEY)] *)
Definition LocalStorage_getItem : M Value :=
  fun env s =>
    match getItem_throws env with
    | Some e => (Throw e, s)
    | None => (Return (stored_value (localStorage s)), s)
    end.

(** [LocalStorage.set(STORAGE_KEY, v)]: the call is logged; the slot is
    overwritten unless the host throws. *)
Definition LocalStorage_set (v : Value) : M unit :=
  fun env s =>
    let s' := mkStore (tasks s) (localStorage s) (log s ++ [StorageSet v]) in
    match set_throws env with
    | Some e => (Throw e, s')
    | None => (Return tt, mkStore (tasks s') (Some v) (log s'))
    end.

(** [LocalStorage.remove(STORAGE_KEY)] *)
Definition LocalStorage_remove : M unit :=
  fun _ s => (Return tt, mkStore (tasks s) None (log s ++ [StorageRemove])).

(** ** [src/stores/taskStore.ts] *)

Definition generateId : M jsstring :=
  env <- ask ;;
  ret (js "task-" ++ number_to_string (now_generateId env) ++ js "-" ++
       substring 2 9 (random_base36 env)).

Definition loadTasksFromStorage : M (list Task) :=
  try_catch
    (stored <- LocalStorage_getItem ;;
     if is_null stored then ret []
     else if negb (isValidTaskArray stored) then
       console_warn
         (js "[TaskStore] Invalid data in localStorage, resetting tasks") ;;
       LocalStorage_remove ;;
       ret []
     else ret (as_tasks stored))
    (fun error =>
       console_error (js "[TaskStore] Error loading tasks from storage:") error ;;
       ret []).

Definition saveTasksToStorage : M unit :=
  try_catch
    (ts <- read_tasks ;;
     LocalStorage_set (tasks_to_value ts))
    (fun error =>
       console_error (js "[TaskStore] Error saving tasks to storage:") error ;;
       Notify_create
         (mkNotification (js "negative")
            (js "Failed to save tasks. Storage might be full.") (js "error"))).

(** [const tasks = ref<Task[]>(loadTasksFromStorage())]: the set-up of the
    store, run on a state whose list is not yet filled. *)
Definition useTaskStore : M unit :=
  ts <- loadTasksFromStorage ;;
  write_tasks ts.

Definition boot (persisted : option Value) : Store := mkStore [] persisted [].

Definition stats : M TaskStats.t :=
  ts <- read_tasks ;;
  ret (TaskStats.mk (length ts)
         (length (filter (λ task, completed task = true) ts))
         (length (filter (λ task, negb (completed task) = true) ts))).

Definition getFilteredTasks (f : TaskFilter.t) : M (list Task) :=
  ts <- read_tasks ;;
  match f with
  | TaskFilter.completed => ret (filter (λ task, completed task = true) ts)
  | TaskFilter.pending => ret (filter (λ task, negb (completed task) = true) ts)
  | TaskFilter.all => ret ts
  end.

Definition addTask (text0 : jsstring) : M Task :=
  let trimmedText := trim text0 in
  if not_string trimmedText then
    throw (Error (js "Task text cannot be empty"))
  else
    newId <- generateId ;;
    env <- ask ;;
    let newTask := mkTask newId trimmedText false (now_createdAt env) in
    ts <- read_tasks ;;
    write_tasks (newTask :: ts) ;;
    saveTasksToStorage ;;
    ret newTask.

Definition not_found_warning (id0 : jsstring) : jsstring :=
  js "[TaskStore] Task with id " ++ dquote ++ id0 ++ dquote ++ js " not found".

Definition toggleTask (id0 : jsstring) : M bool :=
  ts <- read_tasks ;;
  match list_find (λ t, id t = id0) ts with
  | None =>
      console_warn (not_found_warning id0) ;;
      ret false
  | Some (i, task) =>
      write_tasks
        (<[i := mkTask (id task) (text task) (negb (completed task))
                       (createdAt task)]> ts) ;;
      saveTasksToStorage ;;
      ret true
  end.

Definition deleteTask (id0 : jsstring) : M bool :=
  ts <- read_tasks ;;
  match list_find (λ t, id t = id0) ts with
  | None =>
      console_warn (not_found_warning id0) ;;
      ret false
  | Some (index, _) =>
      write_tasks (delete index ts) ;;
      saveTasksToStorage ;;
      ret true
  end.

Definition clearCompleted : M nat :=
  ts <- read_tasks ;;
  let completedCount := length (filter (λ t, completed t = true) ts) in
  write_tasks (filter (λ t, negb (completed t) = true) ts) ;;
  saveTasksToStorage ;;
  ret completedCount.

Definition updateTask (id0 text0 : jsstring) : M bool :=
  ts <- read_tasks ;;
  match list_find (λ t, id t = id0) ts with
  | None =>
      console_warn (not_found_warning id0) ;;
      ret false
  | Some (i, task) =>
      let trimmedText := trim text0 in
      if not_string trimmedText then
        console_warn (js "[TaskStore] Cannot update task with empty text") ;;
        ret false
      else
        write_tasks
          (<[i := mkTask (id task) trimmedText (completed task)
                         (createdAt task)]> ts) ;;
        saveTasksToStorage ;;
        ret true
  end.

(** ** [src/components/TaskInput.vue] *)

(** One run of [handleSubmit]: the text sent with the [add] event (if
    any), the content of the input field afterwards, and the notification
    shown. *)
Record Submission := mkSubmission {
  emitted : option jsstring;
  taskText : jsstring;
  notified : Notification;
}.

Definition handleSubmit (taskText0 : jsstring) : Submission :=
  let text1 := trim taskText0 in
  if not_string text1 then
    mkSubmission None taskText0
      (mkNotification (js "warning") (js "Please enter a task name")
         (js "warning"))
  else
    mkSubmission (Some text1) []
      (mkNotification (js "positive") (js "Task added successfully!")
         (js "check_circle")).

(** ** [src/components/TaskStats.vue] *)

Definition hasCompletedTasks (st : TaskStats.t) : bool :=
  0 <? TaskStats.completed st.

(** ** The page that drives the store ([TasksPage.vue]) *)

(** The argument of [$q.dialog]. *)
Module Dialog.
Record button := mkButton {
  label : jsstring;
  flat : option bool;
  color : option jsstring;
}.
Record t := mk {
  title : jsstring;
  message : jsstring;
  cancel : button;
  ok : button;
  persistent : bool;
  dark : bool;
}.
End Dialog.

Definition handleAddTask (text0 : jsstring) : M unit :=
  _ <- addTask text0 ;; ret tt.

Definition handleToggleTask (id0 : jsstring) : M unit :=
  _ <- toggleTask id0 ;; ret tt.

(** [$q.dialog(options).onOk(callback)]: the dialog that is opened,
    paired with what runs once the user confirms. *)
Definition handleDeleteTask (id0 : jsstring) : Dialog.t * M unit :=
  (Dialog.mk (js "Delete Task")
     (js "Are you sure you want to delete this task?")
     (Dialog.mkButton (js "Cancel") (Some true) None)
     (Dialog.mkButton (js "Delete") None (Some (js "negative")))
     true true,
   (_ <- deleteTask id0 ;;
    Notify_create
      (mkNotification (js "info") (js "Task deleted") (js "delete")))).

(** No dialog is opened when no task is completed. *)
Definition handleClearCompleted : M (option (Dialog.t * M unit)) :=
  st <- stats ;;
  let completedCount := TaskStats.completed st in
  if completedCount =? 0 then ret None
  else
    ret (Some
      (Dialog.mk (js "Clear Completed")
         (js "Remove all " ++ number_to_string (Z.of_nat completedCount) ++
          js " completed task" ++
          (if 1 <? completedCount then js "s" else js "") ++ js "?")
         (Dialog.mkButton (js "Cancel") (Some true) None)
         (Dialog.mkButton (js "Clear") None (Some (js "negative")))
         true true,
       (_ <- clearCompleted ;;
        Notify_create
          (mkNotification (js "info") (js "Completed tasks cleared")
             (js "delete_sweep"))))).

(** * Vocabulary of the statements *)

(** The store after [saveTasksToStorage]. *)
Definition saved (env : Env) (s : Store) : Store :=
  (saveTasksToStorage env s).2.

(** The log entries that are calls into the persistence layer. *)
Definition is_storage_call (e : Effect) : bool :=
  match e with
  | StorageSet _ | StorageRemove => true
  | _ => false
  end.

Definition storage_calls (l : list Effect) : list Effect :=
  filter (λ e, is_storage_call e = true) l.

(** A call leaves the store untouched when the list, the persisted slot
    and the sequence of storage calls are what they were. *)
Definition untouched (s s' : Store) : Prop :=
  tasks s' = tasks s ∧
  localStorage s' = localStorage s ∧
  storage_calls (log s') = storage_calls (log s).

(** The number of tasks a predicate holds of, counted one by one. *)
Fixpoint count_tasks (p : Task -> bool) (ts : list Task) : nat :=
  match ts with
  | [] => 0
  | t :: ts' => (if p t then 1 else 0) + count_tasks p ts'
  end.

(** [view] is the selection of the tasks of [ts] whose [completed] is
    [want]: it holds those tasks and no others, in the order of [ts], each
    as often as it occurs. *)
Definition selection (want : bool) (ts view : list Task) : Prop :=
  view = filter (λ t, completed t = want) ts ∧
  (∀ t, t ∈ view ↔ t ∈ ts ∧ completed t = want) ∧
  view `sublist_of` ts ∧
  length view = count_tasks (λ t, bool_decide (completed t = want)) ts.

(** An element that has a string [id], a string [text], a boolean
    [completed] and a numeric [createdAt]. *)
Definition has_task_shape (item : Value) : Prop :=
  ∃ i t c n,
    get_prop item (js "id") = Some (VString i) ∧
    get_prop item (js "text") = Some (VString t) ∧
    get_prop item (js "completed") = Some (VBool c) ∧
    get_prop item (js "createdAt") = Some (VNumber n).

(** A snapshot that is an array of such elements. *)
Definition well_shaped (data : Value) : Prop :=
  ∃ items, data = VArray items ∧ Forall has_task_shape items.

(** A task of the list holds what the element of the snapshot holds. *)
Definition reads_as (item : Value) (t : Task) : Prop :=
  get_prop item (js "id") = Some (VString (id t)) ∧
  get_prop item (js "text") = Some (VString (text t)) ∧
  get_prop item (js "completed") = Some (VBool (completed t)) ∧
  get_prop item (js "createdAt") = Some (VNumber (createdAt t)).

(** The snapshot is taken over whole: element by element into the list,
    and left in place in the persisted slot. *)
Definition adopted (data : Value) (s : Store) : Prop :=
  ∃ items, data = VArray items ∧ Forall2 reads_as items (tasks s) ∧
           localStorage s = Some data.

Definition invalid_data_warning : jsstring :=
  js "[TaskStore] Invalid data in localStorage, resetting tasks".

(** ** Concrete hosts and stores used in the examples *)

(** A host whose clock and random generator answer the same on every call
    ([0.5] prints as [0.i] in base 36) and whose storage never throws. *)
Definition steady_env : Env :=
  mkEnv 1700000000000 (js "0.i") 1700000000000 None None.

(** A host whose storage refuses every write. *)
Definition full_env : Env :=
  mkEnv 1700000000000 (js "0.4fzyo82mvyr") 1700000000002 None
    (Some (HostException (js "QuotaExceededError"))).

(** A host whose storage cannot be read. *)
Definition unreadable_env : Env :=
  mkEnv 0 [] 0 (Some (HostException (js "SecurityError"))) None.

Definition milk : Task := mkTask (js "t1") (js "Buy milk") true 10.
Definition dog : Task := mkTask (js "t2") (js "Walk dog") false 20.
Definition book : Task := mkTask (js "t3") (js "Read book") true 30.

Definition three_tasks : Store :=
  mkStore [book; dog; milk] (Some (tasks_to_value [book; dog; milk])) [].

(** A snapshot whose second element lacks [completed]. *)
Definition corrupt_snapshot : Value :=
  VArray [ task_to_value milk
         ; VObject [ (js "id", VString (js "t2"))
                   ; (js "text", VString (js "Walk dog"))
                   ; (js "createdAt", VNumber 20) ] ].

(** The store after one successful [addTask] on an empty start, under the
    steady host. *)
Definition once : Store :=
  (addTask (js "Buy milk") steady_env (boot None)).2.

(** The same call repeated while the host answers the same. *)
Definition twice : Store :=
  (addTask (js "Walk dog") steady_env once).2.

(** A well-formed snapshot in which two tasks share an id. *)
Definition twin_snapshot : Value :=
  tasks_to_value [mkTask (js "t1") (js "Buy milk") false 10;
                  mkTask (js "t1") (js "Walk dog") false 20].

(** The states a store can be in: set up from whatever the persisted
    slot holds, then driven by its operations under any host. *)
Inductive reachable : Store -> Prop :=
| reach_useTaskStore env persisted :
    reachable (useTaskStore env (boot persisted)).2
| reach_addTask env s text0 :
    reachable s → reachable (addTask text0 env s).2
| reach_toggleTask env s id0 :
    reachable s → reachable (toggleTask id0 env s).2
| reach_updateTask env s id0 text0 :
    reachable s → reachable (updateTask id0 text0 env s).2
| reach_deleteTask env s id0 :
    reachable s → reachable (deleteTask id0 env s).2
| reach_clearCompleted env s :
    reachable s → reachable (clearCompleted env s).2.

(** ** Vocabulary of the further properties *)

(** The host's storage accepts every write, or can also be read. *)
Definition writes_succeed (env : Env) : Prop := set_throws env = None.

Definition storage_works (env : Env) : Prop :=
  getItem_throws env = None ∧ set_throws env = None.

(** Two hosts that answer the same except, possibly, in what their
    storage does. *)
Definition same_clock (env env' : Env) : Prop :=
  now_generateId env = now_generateId env' ∧
  random_base36 env = random_base36 env' ∧
  now_createdAt env = now_createdAt env'.



(** The text of every task is non-empty and has no blank at either end. *)
Definition tidy_texts (ts : list Task) : Prop :=
  Forall (λ t, text t ≠ [] ∧ trim (text t) = text t) ts.

(** The states a store gets into from [s0] by its operations, when every
    host it meets satisfies [P]. *)
Inductive grown_from (P : Env -> Prop) (s0 : Store) : Store -> Prop :=
| grown_start : grown_from P s0 s0
| grown_addTask env s text0 :
    P env → grown_from P s0 s → grown_from P s0 (addTask text0 env s).2
| grown_toggleTask env s id0 :
    P env → grown_from P s0 s → grown_from P s0 (toggleTask id0 env s).2
| grown_updateTask env s id0 text0 :
    P env → grown_from P s0 s →
    grown_from P s0 (updateTask id0 text0 env s).2
| grown_deleteTask env s id0 :
    P env → grown_from P s0 s → grown_from P s0 (deleteTask id0 env s).2
| grown_clearCompleted env s :
    P env → grown_from P s0 s → grown_from P s0 (clearCompleted env s).2.

(** What the elements of a snapshot hold under [id], in their order. *)
Definition snapshot_ids (data : Value) : list (option Value) :=
  match data with
  | VArray items => (λ item, get_prop item (js "id")) <$> items
  | _ => []
  end.

(** The host [full_env] with a storage that takes every write. *)
Definition roomy_env : Env :=
  mkEnv 1700000000000 (js "0.4fzyo82mvyr") 1700000000002 None None.

(** The hyphen, and a suffix free of it (as the digits of base 36 are). *)
Definition hyphen : N := 45%N.

Definition hyphen_free (suffix : jsstring) : Prop := hyphen ∉ suffix.

(** * Properties of the store *)

(** ** Running the operations *)

(** Decidable side conditions on concrete data are settled by evaluation. *)
Ltac by_evaluation := apply (bool_decide_unpack _); vm_compute; exact I.

Ltac run_store :=
  unfold saved, saveTasksToStorage, try_catch, bind, ret, throw, ask,
    read_tasks, write_tasks, console_warn, console_error, Notify_create,
    emit, LocalStorage_set, LocalStorage_getItem, LocalStorage_remove in *;
  cbn [fst snd tasks localStorage log] in *.

Lemma saveTasksToStorage_run env s :
  saveTasksToStorage env s = (Return tt, saved env s).
Proof. run_store. by destruct (set_throws env). Qed.

Lemma saved_tasks env s : tasks (saved env s) = tasks s.
Proof. run_store. by destruct (set_throws env). Qed.

Section Runs.
Context (env : Env) (s : Store).

Lemma addTask_run text0 :
  addTask text0 env s =
  if not_string (trim text0) then
    (Throw (Error (js "Task text cannot be empty")), s)
  else
    let newTask :=
      mkTask (js "task-" ++ number_to_string (now_generateId env) ++
              js "-" ++ substring 2 9 (random_base36 env))
             (trim text0) false (now_createdAt env) in
    (Return newTask,
     saved env (mkStore (newTask :: tasks s) (localStorage s) (log s))).
Proof.
  unfold addTask, generateId. destruct (not_string (trim text0)); [done|].
  unfold bind at 1 2 3 4 5. unfold ask, ret, read_tasks, write_tasks.
  cbn [tasks localStorage log]. unfold bind.
  by rewrite saveTasksToStorage_run.
Qed.

Lemma toggleTask_run id0 :
  toggleTask id0 env s =
  match list_find (λ t, id t = id0) (tasks s) with
  | None =>
      (Return false,
       mkStore (tasks s) (localStorage s)
         (log s ++ [ConsoleWarn (not_found_warning id0)]))
  | Some (i, task) =>
      (Return true,
       saved env
         (mkStore (<[i := mkTask (id task) (text task)
                            (negb (completed task)) (createdAt task)]>
                     (tasks s))
            (localStorage s) (log s)))
  end.
Proof.
  unfold toggleTask, bind at 1, read_tasks.
  destruct (list_find _ (tasks s)) as [[i task]|]; [|done].
  unfold bind, write_tasks, ret. cbn [tasks localStorage log].
  by rewrite saveTasksToStorage_run.
Qed.

Lemma deleteTask_run id0 :
  deleteTask id0 env s =
  match list_find (λ t, id t = id0) (tasks s) with
  | None =>
      (Return false,
       mkStore (tasks s) (localStorage s)
         (log s ++ [ConsoleWarn (not_found_warning id0)]))
  | Some (index, _) =>
      (Return true,
       saved env
         (mkStore (delete index (tasks s)) (localStorage s) (log s)))
  end.
Proof.
  unfold deleteTask, bind at 1, read_tasks.
  destruct (list_find _ (tasks s)) as [[i task]|]; [|done].
  unfold bind, write_tasks, ret. cbn [tasks localStorage log].
  by rewrite saveTasksToStorage_run.
Qed.

Lemma updateTask_run id0 text0 :
  updateTask id0 text0 env s =
  match list_find (λ t, id t = id0) (tasks s) with
  | None =>
      (Return false,
       mkStore (tasks s) (localStorage s)
         (log s ++ [ConsoleWarn (not_found_warning id0)]))
  | Some (i, task) =>
      if not_string (trim text0) then
        (Return false,
         mkStore (tasks s) (localStorage s)
           (log s ++
            [ConsoleWarn
               (js "[TaskStore] Cannot update task with empty text")]))
      else
        (Return true,
         saved env
           (mkStore (<[i := mkTask (id task) (trim text0) (completed task)
                              (createdAt task)]> (tasks s))
              (localStorage s) (log s)))
  end.
Proof.
  unfold updateTask, bind at 1, read_tasks.
  destruct (list_find _ (tasks s)) as [[i task]|]; [|done].
  destruct (not_string (trim text0)); [done|].
  unfold bind, write_tasks, ret. cbn [tasks localStorage log].
  by rewrite saveTasksToStorage_run.
Qed.

Lemma clearCompleted_run :
  clearCompleted env s =
  (Return (length (filter (λ t, completed t = true) (tasks s))),
   saved env
     (mkStore (filter (λ t, negb (completed t) = true) (tasks s))
        (localStorage s) (log s))).
Proof.
  unfold clearCompleted, bind, read_tasks, write_tasks, ret.
  cbn [tasks localStorage log]. by rewrite saveTasksToStorage_run.
Qed.

Lemma stats_run :
  stats env s =
  (Return (TaskStats.mk (length (tasks s))
             (length (filter (λ t, completed t = true) (tasks s)))
             (length (filter (λ t, negb (completed t) = true) (tasks s)))),
   s).
Proof. done. Qed.

End Runs.

(** ** Lists of tasks *)

Lemma not_string_true (x : jsstring) : not_string x = true ↔ x = [].
Proof. by destruct x. Qed.

Lemma not_string_false (x : jsstring) : not_string x = false ↔ x ≠ [].
Proof. by destruct x. Qed.

Lemma find_absent id0 (ts : list Task) :
  id0 ∉ id <$> ts → list_find (λ t, id t = id0) ts = None.
Proof.
  intros Hnot. apply list_find_None, Forall_forall. intros t Ht Hid.
  apply Hnot. rewrite <- Hid. by apply list_elem_of_fmap_2.
Qed.

Lemma find_present id0 (ts : list Task) :
  id0 ∈ id <$> ts → ∃ i task, list_find (λ t, id t = id0) ts = Some (i, task).
Proof.
  intros (t & -> & Ht)%list_elem_of_fmap.
  destruct (list_find_elem_of (λ t', id t' = id t) ts t Ht eq_refl)
    as [[i task] Hfind].
  eauto.
Qed.

Lemma length_filter_count (p : Task -> bool) (ts : list Task) :
  length (filter (λ t, p t = true) ts) = count_tasks p ts.
Proof.
  induction ts as [|t ts IH]; [done|].
  rewrite filter_cons. cbn [count_tasks].
  destruct (decide (p t = true)) as [->|Hp].
  - cbn. by rewrite IH.
  - apply not_true_is_false in Hp. rewrite Hp. by rewrite IH.
Qed.

Lemma count_tasks_split (p : Task -> bool) (ts : list Task) :
  count_tasks p ts + count_tasks (λ t, negb (p t)) ts = length ts.
Proof.
  induction ts as [|t ts IH]; [done|].
  cbn [count_tasks length]. destruct (p t); cbn; lia.
Qed.

(** ** Failing calls *)

(** C9. When the trimmed text is empty (as for the empty string and for a
    string of blanks), [addTask] throws the error "Task text cannot be
    empty" and the store, its list included, is exactly what it was. *)
Theorem addTask_empty_text env s text0 :
  trim text0 = [] →
  addTask text0 env s = (Throw (Error (js "Task text cannot be empty")), s).
Proof. intros Hempty. by rewrite addTask_run, Hempty. Qed.

Lemma addTask_empty_text_witness :
  trim (js "") = [] ∧ trim (js "   ") = [] ∧
  addTask (js "") steady_env three_tasks =
    (Throw (Error (js "Task text cannot be empty")), three_tasks) ∧
  addTask (js "   ") steady_env three_tasks =
    (Throw (Error (js "Task text cannot be empty")), three_tasks).
Proof.
  split; [reflexivity|]. split; [reflexivity|]. split.
  - apply (addTask_empty_text steady_env three_tasks (js "")). reflexivity.
  - apply (addTask_empty_text steady_env three_tasks (js "   ")). reflexivity.
Defined.

(** C7. For an id that no task of the list carries, [toggleTask],
    [updateTask] and [deleteTask] all complete normally with [false]; the
    only effect is the "not found" warning on the console, and the list is
    the one before the call. *)
Theorem unknown_id_is_reported env s id0 text0 :
  id0 ∉ (id <$> tasks s) →
  let s' := mkStore (tasks s) (localStorage s)
              (log s ++ [ConsoleWarn (not_found_warning id0)]) in
  toggleTask id0 env s = (Return false, s') ∧
  updateTask id0 text0 env s = (Return false, s') ∧
  deleteTask id0 env s = (Return false, s') ∧
  tasks s' = tasks s.
Proof.
  intros Habsent%find_absent s'.
  rewrite toggleTask_run, updateTask_run, deleteTask_run, Habsent. done.
Qed.

Lemma unknown_id_is_reported_witness :
  let s' := mkStore (tasks three_tasks) (localStorage three_tasks)
              [ConsoleWarn (not_found_warning (js "nonexistent"))] in
  toggleTask (js "nonexistent") steady_env three_tasks = (Return false, s') ∧
  updateTask (js "nonexistent") (js "Feed cat") steady_env three_tasks =
    (Return false, s') ∧
  deleteTask (js "nonexistent") steady_env three_tasks = (Return false, s') ∧
  tasks s' = tasks three_tasks.
Proof.
  apply (unknown_id_is_reported steady_env three_tasks (js "nonexistent")
           (js "Feed cat")).
  by_evaluation.
Defined.

(** C10. A failing call never reaches the persistence layer: after
    [addTask] or [updateTask] with a text that is empty once trimmed, and
    after [toggleTask], [updateTask] or [deleteTask] with an id that is not
    in the list, the persisted slot is the same and the log holds no new
    storage call (and the list is the same as well). *)
Theorem failing_call_writes_nothing env s id0 text0 :
  (trim text0 = [] →
     untouched s (addTask text0 env s).2 ∧
     untouched s (updateTask id0 text0 env s).2) ∧
  (id0 ∉ (id <$> tasks s) →
     untouched s (toggleTask id0 env s).2 ∧
     untouched s (updateTask id0 text0 env s).2 ∧
     untouched s (deleteTask id0 env s).2).
Proof.
  assert (Hwarn : ∀ msg,
    untouched s (mkStore (tasks s) (localStorage s)
                   (log s ++ [ConsoleWarn msg]))).
  { intros msg. unfold untouched, storage_calls. cbn [tasks localStorage log].
    rewrite filter_app, filter_cons_False, filter_nil, app_nil_r; done. }
  split.
  - intros Hempty. rewrite addTask_run, updateTask_run, Hempty. cbn [snd].
    split; [done|].
    destruct (list_find _ (tasks s)) as [[i task]|]; cbn; apply Hwarn.
  - intros Habsent%find_absent.
    rewrite toggleTask_run, updateTask_run, deleteTask_run, Habsent. cbn [snd].
    auto.
Qed.

Lemma failing_call_writes_nothing_witness :
  (untouched three_tasks (addTask (js "   ") full_env three_tasks).2 ∧
   untouched three_tasks
     (updateTask (js "t2") (js "   ") full_env three_tasks).2) ∧
  (untouched three_tasks (toggleTask (js "t9") full_env three_tasks).2 ∧
   untouched three_tasks
     (updateTask (js "t9") (js "Feed cat") full_env three_tasks).2 ∧
   untouched three_tasks (deleteTask (js "t9") full_env three_tasks).2).
Proof.
  split.
  - apply (failing_call_writes_nothing full_env three_tasks (js "t2")
             (js "   ")).
    reflexivity.
  - apply (failing_call_writes_nothing full_env three_tasks (js "t9")
             (js "Feed cat")).
    by_evaluation.
Defined.

(** ** Updating with an empty text *)

Lemma warnings_differ id1 :
  not_found_warning id1 ≠ js "[TaskStore] Cannot update task with empty text".
Proof.
  unfold not_found_warning.
  cbv [js list_ascii_of_string fmap list_fmap app]. discriminate.
Qed.

(** C2, as the code has it. For an id of the list and a text that is empty
    once trimmed, [updateTask] returns [false] and changes neither the list
    nor the persisted slot; a call with an id that is not in the list
    returns the very same [false]. What tells the two failures apart is
    the warning each one writes to the console. *)
Theorem updateTask_empty_text env s id0 text0 :
  id0 ∈ (id <$> tasks s) →
  trim text0 = [] →
  updateTask id0 text0 env s =
    (Return false,
     mkStore (tasks s) (localStorage s)
       (log s ++
        [ConsoleWarn (js "[TaskStore] Cannot update task with empty text")])) ∧
  ∀ id1 text1, id1 ∉ (id <$> tasks s) →
    (updateTask id1 text1 env s).1 = (updateTask id0 text0 env s).1 ∧
    log (updateTask id1 text1 env s).2 ≠ log (updateTask id0 text0 env s).2.
Proof.
  intros (i & task & Hfound)%find_present Hempty.
  rewrite updateTask_run, Hfound, Hempty. cbn [not_string]. split; [done|].
  intros id1 text1 Habsent%find_absent.
  rewrite updateTask_run, Habsent. cbn [fst snd log]. split; [done|].
  intros Hlog%app_inv_head. apply (warnings_differ id1). congruence.
Qed.

Lemma updateTask_empty_text_witness :
  updateTask (js "t2") (js "   ") steady_env three_tasks =
    (Return false,
     mkStore (tasks three_tasks) (localStorage three_tasks)
       [ConsoleWarn (js "[TaskStore] Cannot update task with empty text")]) ∧
  ∀ id1 text1, id1 ∉ (id <$> tasks three_tasks) →
    (updateTask id1 text1 steady_env three_tasks).1 =
      (updateTask (js "t2") (js "   ") steady_env three_tasks).1 ∧
    log (updateTask id1 text1 steady_env three_tasks).2 ≠
      log (updateTask (js "t2") (js "   ") steady_env three_tasks).2.
Proof.
  apply (updateTask_empty_text steady_env three_tasks (js "t2") (js "   ")).
  - by_evaluation.
  - reflexivity.
Defined.

(** C2, as the claim words it, fails: with "t2" in the list and "t9" not,
    the empty-text failure and the not-found failure hand the caller the
    same result, so the result does not tell them apart. *)
Lemma updateTask_failures_same_result :
  js "t2" ∈ (id <$> tasks three_tasks) ∧
  (js "t9" ∉ (id <$> tasks three_tasks)) ∧
  trim (js "   ") = [] ∧
  ¬ ((updateTask (js "t2") (js "   ") steady_env three_tasks).1 ≠
     (updateTask (js "t9") (js "Feed cat") steady_env three_tasks).1).
Proof.
  split; [by_evaluation|]. split; [by_evaluation|]. split; [reflexivity|].
  intros Hdistinct. apply Hdistinct. reflexivity.
Qed.

(** ** Adding a task, and the ids of the list *)

Lemma insert_keeps_ids (ts : list Task) i task task' :
  ts !! i = Some task → id task' = id task →
  id <$> <[i := task']> ts = id <$> ts.
Proof.
  intros Hi Hid. rewrite list_fmap_insert, Hid.
  apply list_insert_id. by rewrite list_lookup_fmap, Hi.
Qed.

(** X19. When the trimmed text is not empty, [addTask] returns a task
    with the trimmed text, [completed = false], the id that [generateId]
    builds from the clock and the random text, and the second clock
    reading as [createdAt]. The task sits at index 0, the list is one
    longer, and the tasks that were there follow unchanged. *)
Theorem addTask_success env s text0 :
  trim text0 ≠ [] →
  ∃ newTask s',
    addTask text0 env s = (Return newTask, s') ∧
    text newTask = trim text0 ∧
    completed newTask = false ∧
    id newTask = js "task-" ++ number_to_string (now_generateId env) ++
                 js "-" ++ substring 2 9 (random_base36 env) ∧
    createdAt newTask = now_createdAt env ∧
    tasks s' = newTask :: tasks s ∧
    tasks s' !! 0 = Some newTask ∧
    length (tasks s') = S (length (tasks s)) ∧
    ∀ i, tasks s' !! S i = tasks s !! i.
Proof.
  intros Hfull%not_string_false. rewrite addTask_run, Hfull.
  eexists _, _. split; [reflexivity|]. rewrite saved_tasks.
  cbn [text completed id createdAt tasks]. repeat split; done.
Qed.

Lemma addTask_success_witness :
  ∃ newTask s',
    addTask (js "  Walk dog ") full_env three_tasks = (Return newTask, s') ∧
    text newTask = trim (js "  Walk dog ") ∧
    completed newTask = false ∧
    id newTask = js "task-" ++ number_to_string (now_generateId full_env) ++
                 js "-" ++ substring 2 9 (random_base36 full_env) ∧
    createdAt newTask = now_createdAt full_env ∧
    tasks s' = newTask :: tasks three_tasks ∧
    tasks s' !! 0 = Some newTask ∧
    length (tasks s') = S (length (tasks three_tasks)) ∧
    ∀ i, tasks s' !! S i = tasks three_tasks !! i.
Proof.
  apply (addTask_success full_env three_tasks (js "  Walk dog ")).
  vm_compute. discriminate.
Defined.

(** C1. The claim asks that the id of the task [addTask] returns differ
    from the id of every task already in the list, and [generateId]
    announces a unique id. Run on the store that holds the task added a
    moment before, while the clock and the random generator answer as they
    did then, [addTask] returns a task whose id is the id of that task. *)
Lemma addTask_id_not_fresh :
  trim (js "Walk dog") ≠ [] ∧
  ∃ newTask s' old,
    addTask (js "Walk dog") steady_env once = (Return newTask, s') ∧
    old ∈ tasks once ∧ id newTask = id old.
Proof.
  split; [vm_compute; discriminate|].
  eexists _, _, _. split; [vm_compute; reflexivity|].
  split; [apply list_elem_of_here|reflexivity].
Qed.

(** C4, as the claim words it, fails: a store set up from a well-formed
    snapshot in which two elements carry the same id is in a reachable
    state, and two tasks of its list share that id. *)
Lemma reachable_with_shared_ids :
  well_shaped twin_snapshot ∧
  reachable (useTaskStore steady_env (boot (Some twin_snapshot))).2 ∧
  ¬ NoDup (id <$> tasks
             (useTaskStore steady_env (boot (Some twin_snapshot))).2).
Proof.
  split; [|split].
  - exists [task_to_value (mkTask (js "t1") (js "Buy milk") false 10);
            task_to_value (mkTask (js "t1") (js "Walk dog") false 20)].
    split; [reflexivity|]. repeat constructor; by eexists _, _, _, _.
  - apply reach_useTaskStore.
  - vm_compute. intros [Hnotin _]%NoDup_cons. apply Hnotin, list_elem_of_here.
Qed.

(** ** Clearing, toggling and the derived reads *)

Lemma filter_pending_eq (ts : list Task) :
  filter (λ t, negb (completed t) = true) ts =
  filter (λ t, completed t = false) ts.
Proof. apply list_filter_iff. intros t. by destruct (completed t). Qed.

Lemma no_completed_left (ts : list Task) :
  filter (λ t, completed t = true) (filter (λ t, negb (completed t) = true) ts)
  = [].
Proof.
  induction ts as [|t ts IH]; [done|].
  rewrite filter_cons. destruct (decide _) as [Hp|Hp]; [|done].
  rewrite filter_cons_False; [done|]. by destruct (completed t).
Qed.

Lemma filter_pending_twice (ts : list Task) :
  filter (λ t, negb (completed t) = true)
    (filter (λ t, negb (completed t) = true) ts)
  = filter (λ t, negb (completed t) = true) ts.
Proof.
  induction ts as [|t ts IH]; [done|].
  rewrite filter_cons. destruct (decide _) as [Hp|Hp]; [|done].
  by rewrite filter_cons_True, IH.
Qed.

Lemma count_tasks_insert (p : Task -> bool) (ts : list Task) i task task' :
  ts !! i = Some task →
  count_tasks p (<[i := task']> ts) + (if p task then 1 else 0) =
  count_tasks p ts + (if p task' then 1 else 0).
Proof.
  revert i. induction ts as [|t ts IH]; intros [|i] Hi; try done.
  - injection Hi as ->. cbn. lia.
  - cbn in Hi. cbn [count_tasks]. change (<[S i:=task']> (t :: ts))
      with (t :: <[i:=task']> ts). cbn [count_tasks].
    specialize (IH i Hi). lia.
Qed.

(** C5. With [n] tasks of which [k] are completed, [clearCompleted]
    returns [k] and keeps exactly the [n - k] tasks that are not completed,
    in their order; a second call right after returns 0 and keeps the list
    as it is. *)
Theorem clearCompleted_removes_completed env env' s :
  let n := length (tasks s) in
  let k := count_tasks completed (tasks s) in
  ∃ s',
    clearCompleted env s = (Return k, s') ∧
    tasks s' = filter (λ t, completed t = false) (tasks s) ∧
    (∀ t, t ∈ tasks s' ↔ t ∈ tasks s ∧ completed t = false) ∧
    tasks s' `sublist_of` tasks s ∧
    length (tasks s') = n - k ∧
    ∃ s'', clearCompleted env' s' = (Return 0, s'') ∧ tasks s'' = tasks s'.
Proof.
  intros n k. rewrite clearCompleted_run. eexists. split.
  { by rewrite length_filter_count. }
  rewrite !saved_tasks. cbn [tasks].
  split; [apply filter_pending_eq|]. split.
  { intros t. rewrite list_elem_of_filter, negb_true_iff. tauto. }
  split; [apply sublist_filter|]. split.
  { rewrite (length_filter_count (λ t, negb (completed t))).
    pose proof (count_tasks_split completed (tasks s)). subst n k. lia. }
  rewrite clearCompleted_run. eexists. split.
  { rewrite saved_tasks. cbn [tasks]. by rewrite no_completed_left. }
  repeat (rewrite saved_tasks; cbn [tasks]). apply filter_pending_twice.
Qed.

(** C6. For an id of the list, [toggleTask] returns [true] and negates
    [completed] on one task carrying that id (the first one), whose [id],
    [text] and [createdAt] stay; every other position of the list holds
    what it held. The total of [stats] is the same before and after, and
    the completed and pending counts move by one in opposite directions. *)
Theorem toggleTask_flips_one env env' s id0 :
  id0 ∈ (id <$> tasks s) →
  ∃ i task s' before after,
    tasks s !! i = Some task ∧ id task = id0 ∧
    toggleTask id0 env s = (Return true, s') ∧
    tasks s' !! i =
      Some (mkTask (id task) (text task) (negb (completed task))
              (createdAt task)) ∧
    (∀ j, j ≠ i → tasks s' !! j = tasks s !! j) ∧
    length (tasks s') = length (tasks s) ∧
    stats env' s = (Return before, s) ∧
    stats env' s' = (Return after, s') ∧
    TaskStats.total after = TaskStats.total before ∧
    (if completed task
     then TaskStats.completed after + 1 = TaskStats.completed before ∧
          TaskStats.pending after = TaskStats.pending before + 1
     else TaskStats.completed after = TaskStats.completed before + 1 ∧
          TaskStats.pending after + 1 = TaskStats.pending before).
Proof.
  intros (i & task & Hfind)%find_present.
  rewrite toggleTask_run, Hfind.
  apply list_find_Some in Hfind as (Hi & Hid & _).
  eexists i, task, _, _, _. rewrite !stats_run.
  do 3 (split; [done|]). rewrite saved_tasks. cbn [tasks].
  split. { apply list_lookup_insert_eq. by eapply lookup_lt_Some. }
  split. { intros j Hj. by apply list_lookup_insert_ne. }
  split; [apply length_insert|].
  do 2 (split; [reflexivity|]). cbn [TaskStats.total TaskStats.completed
    TaskStats.pending]. split; [apply length_insert|].
  rewrite !(length_filter_count completed),
    !(length_filter_count (λ t, negb (completed t))).
  pose proof (count_tasks_insert completed (tasks s) i task
    (mkTask (id task) (text task) (negb (completed task)) (createdAt task)) Hi)
    as Hdone.
  pose proof (count_tasks_insert (λ t, negb (completed t)) (tasks s) i task
    (mkTask (id task) (text task) (negb (completed task)) (createdAt task)) Hi)
    as Hpending.
  cbn [completed] in Hdone, Hpending.
  destruct (completed task); cbn [negb] in *; cbn in Hdone, Hpending; lia.
Qed.

Lemma toggleTask_flips_one_witness :
  ∃ i task s' before after,
    tasks three_tasks !! i = Some task ∧ id task = js "t2" ∧
    toggleTask (js "t2") steady_env three_tasks = (Return true, s') ∧
    tasks s' !! i =
      Some (mkTask (id task) (text task) (negb (completed task))
              (createdAt task)) ∧
    (∀ j, j ≠ i → tasks s' !! j = tasks three_tasks !! j) ∧
    length (tasks s') = length (tasks three_tasks) ∧
    stats full_env three_tasks = (Return before, three_tasks) ∧
    stats full_env s' = (Return after, s') ∧
    TaskStats.total after = TaskStats.total before ∧
    (if completed task
     then TaskStats.completed after + 1 = TaskStats.completed before ∧
          TaskStats.pending after = TaskStats.pending before + 1
     else TaskStats.completed after = TaskStats.completed before + 1 ∧
          TaskStats.pending after + 1 = TaskStats.pending before).
Proof.
  apply (toggleTask_flips_one steady_env full_env three_tasks (js "t2")).
  by_evaluation.
Defined.

(** C8. [stats] returns the length of the list, the number of completed
    tasks and the number of tasks that are not completed;
    [getFilteredTasks] returns the list itself for 'all', and for
    'completed' (for 'pending') exactly the tasks with [completed = true]
    ([= false]), each as often as it occurs and in the order of the list.
    Both reads hand the store back as it was. *)
Theorem derived_reads env s :
  stats env s =
    (Return (TaskStats.mk (length (tasks s))
               (count_tasks completed (tasks s))
               (count_tasks (λ t, negb (completed t)) (tasks s))), s) ∧
  getFilteredTasks TaskFilter.all env s = (Return (tasks s), s) ∧
  (∃ view, getFilteredTasks TaskFilter.completed env s = (Return view, s) ∧
           selection true (tasks s) view) ∧
  (∃ view, getFilteredTasks TaskFilter.pending env s = (Return view, s) ∧
           selection false (tasks s) view).
Proof.
  assert (Hselection : ∀ want,
    selection want (tasks s) (filter (λ t, completed t = want) (tasks s))).
  { intros want. split; [done|]. split.
    { intros t. rewrite list_elem_of_filter. tauto. }
    split; [apply sublist_filter|].
    rewrite <- (length_filter_count (λ t, bool_decide (completed t = want))).
    f_equal. apply list_filter_iff. intros t. by rewrite bool_decide_eq_true. }
  split.
  { rewrite stats_run.
    by rewrite (length_filter_count completed),
      (length_filter_count (λ t, negb (completed t))). }
  split; [done|]. split.
  - eexists. split; [reflexivity|]. apply Hselection.
  - eexists. split; [|apply (Hselection false)].
    unfold getFilteredTasks, bind, read_tasks, ret.
    by rewrite filter_pending_eq.
Qed.

(** ** Setting the store up from the persisted snapshot *)

Lemma typeof_string v : typeof v = TyString ↔ ∃ x, v = Some (VString x).
Proof. destruct v as [[]|]; cbn; split; try done; eauto; by intros [? ?]. Qed.

Lemma typeof_boolean v : typeof v = TyBoolean ↔ ∃ b, v = Some (VBool b).
Proof. destruct v as [[]|]; cbn; split; try done; eauto; by intros [? ?]. Qed.

Lemma typeof_number v : typeof v = TyNumber ↔ ∃ n, v = Some (VNumber n).
Proof. destruct v as [[]|]; cbn; split; try done; eauto; by intros [? ?]. Qed.

Lemma isValidTask_shape item : isValidTask item = true ↔ has_task_shape item.
Proof.
  unfold isValidTask, has_task_shape.
  rewrite !andb_true_iff, !bool_decide_eq_true, negb_true_iff.
  rewrite !typeof_string, typeof_boolean, typeof_number.
  split.
  - intros (((((_ & _) & [i Hi]) & [t Ht]) & [c Hc]) & [n Hn]). eauto 10.
  - intros (i & t & c & n & Hi & Ht & Hc & Hn).
    destruct item; try discriminate Hi. eauto 10.
Qed.

Lemma every_Forall (f : Value -> bool) (items : list Value) :
  forallb f items = true ↔ Forall (λ item, f item = true) items.
Proof.
  induction items as [|item items IH]; cbn.
  - split; [constructor|done].
  - by rewrite andb_true_iff, Forall_cons, IH.
Qed.

Lemma isValidTaskArray_shape data :
  isValidTaskArray data = true ↔ well_shaped data.
Proof.
  unfold well_shaped.
  destruct data; cbn; try (split; [done|by intros (? & ? & _)]).
  rewrite every_Forall. split.
  - intros Hall. eexists. split; [done|].
    eapply Forall_impl; [done|]. intros item. apply isValidTask_shape.
  - intros (items' & [= <-] & Hall).
    eapply Forall_impl; [done|]. intros item. apply isValidTask_shape.
Qed.

Lemma as_task_reads item :
  has_task_shape item → ∃ t, as_task item = Some t ∧ reads_as item t.
Proof.
  intros (i & t & c & n & Hi & Ht & Hc & Hn).
  exists (mkTask i t c n). unfold as_task, reads_as. by rewrite Hi, Ht, Hc, Hn.
Qed.

Lemma as_tasks_reads items :
  Forall has_task_shape items →
  Forall2 reads_as items (as_tasks (VArray items)).
Proof.
  cbn [as_tasks]. induction 1 as [|item items Hitem _ IH]; [constructor|].
  destruct (as_task_reads item Hitem) as (t & Ht & Hreads).
  cbn. rewrite Ht. by constructor.
Qed.

Lemma useTaskStore_run env persisted :
  useTaskStore env (boot persisted) =
  match getItem_throws env with
  | Some error =>
      (Return tt,
       mkStore [] persisted
         [ConsoleError (js "[TaskStore] Error loading tasks from storage:")
            error])
  | None =>
      let stored := stored_value persisted in
      if is_null stored then (Return tt, mkStore [] persisted [])
      else if isValidTaskArray stored
      then (Return tt, mkStore (as_tasks stored) persisted [])
      else (Return tt,
            mkStore [] None [ConsoleWarn invalid_data_warning; StorageRemove])
  end.
Proof.
  unfold useTaskStore, loadTasksFromStorage, boot. run_store.
  destruct (getItem_throws env); [done|]. cbn [localStorage].
  destruct (is_null _); [done|]. by destruct (isValidTaskArray _).
Qed.

(** C3. When the storage can be read and holds a snapshot, the snapshot is
    adopted whole exactly when it is an array whose elements all have a
    string [id], a string [text], a boolean [completed] and a numeric
    [createdAt]. Otherwise nothing of it is kept and the list starts
    empty; when an element of the array fails the check (and for every
    other value but [null], which reads like an absent key) a warning is
    logged and the snapshot is removed from the storage. When reading the
    storage throws, the set-up still completes, with an empty list and the
    error logged. *)
Theorem snapshot_all_or_nothing env data persisted error :
  (getItem_throws env = None →
     let run := useTaskStore env (boot (Some data)) in
     run.1 = Return tt ∧
     (well_shaped data ↔ adopted data run.2) ∧
     (well_shaped data → log run.2 = []) ∧
     (¬ well_shaped data → tasks run.2 = []) ∧
     (∀ items, data = VArray items → ¬ Forall has_task_shape items →
        run.2 = mkStore [] None
                  [ConsoleWarn invalid_data_warning; StorageRemove]) ∧
     (¬ well_shaped data → data ≠ VNull →
        run.2 = mkStore [] None
                  [ConsoleWarn invalid_data_warning; StorageRemove])) ∧
  (getItem_throws env = Some error →
     useTaskStore env (boot persisted) =
       (Return tt,
        mkStore [] persisted
          [ConsoleError (js "[TaskStore] Error loading tasks from storage:")
             error])).
Proof.
  rewrite !useTaskStore_run. split.
  - intros ->. cbn [stored_value fst snd].
    destruct (isValidTaskArray data) eqn:Hvalid.
    + apply isValidTaskArray_shape in Hvalid as Hshape.
      pose proof Hshape as (items & -> & Hall).
      cbn [is_null fst snd tasks log localStorage].
      split; [done|]. split.
      { split; [|done]. intros _. exists items.
        split; [done|]. split; [|done]. by apply as_tasks_reads. }
      split; [done|]. split; [done|]. split; [|done].
      by intros ? [= <-] Hnot.
    + assert (¬ well_shaped data) as Hshape.
      { rewrite <- isValidTaskArray_shape. congruence. }
      assert (¬ adopted data (mkStore [] None
                [ConsoleWarn invalid_data_warning; StorageRemove])) as Hdropped.
      { by intros (items & _ & _ & Hkept). }
      destruct data; cbn [is_null fst snd tasks log localStorage];
        try done.
      split; [done|]. split; [|done]. split; [done|].
      by intros (items & ? & _).
  - by intros ->.
Qed.

Lemma snapshot_all_or_nothing_witness :
  (let run := useTaskStore steady_env (boot (Some corrupt_snapshot)) in
   run.1 = Return tt ∧
   (well_shaped corrupt_snapshot ↔ adopted corrupt_snapshot run.2) ∧
   (well_shaped corrupt_snapshot → log run.2 = []) ∧
   (¬ well_shaped corrupt_snapshot → tasks run.2 = []) ∧
   (∀ items, corrupt_snapshot = VArray items →
      ¬ Forall has_task_shape items →
      run.2 = mkStore [] None
                [ConsoleWarn invalid_data_warning; StorageRemove]) ∧
   (¬ well_shaped corrupt_snapshot → corrupt_snapshot ≠ VNull →
      run.2 = mkStore [] None
                [ConsoleWarn invalid_data_warning; StorageRemove])) ∧
  useTaskStore unreadable_env (boot (Some corrupt_snapshot)) =
    (Return tt,
     mkStore [] (Some corrupt_snapshot)
       [ConsoleError (js "[TaskStore] Error loading tasks from storage:")
          (HostException (js "SecurityError"))]).
Proof.
  split.
  - apply (snapshot_all_or_nothing steady_env corrupt_snapshot None
             (Error [])).
    reflexivity.
  - apply (snapshot_all_or_nothing unreadable_env corrupt_snapshot
             (Some corrupt_snapshot) (HostException (js "SecurityError"))).
    reflexivity.
Defined.

(** ** The ids of the list *)

Lemma reads_as_ids items ts :
  Forall2 reads_as items ts →
  (λ t, Some (VString (id t))) <$> ts =
  (λ item, get_prop item (js "id")) <$> items.
Proof.
  induction 1 as [|item t items ts (Hid & _) _ IH]; [done|].
  cbn [fmap list_fmap]. rewrite Hid. f_equal. apply IH.
Qed.

(** C4, as the code has it. Pairwise distinct ids stay pairwise distinct
    under [toggleTask], [updateTask], [deleteTask] and [clearCompleted].
    A store set up from a well-shaped snapshot starts with the ids of the
    snapshot's elements, in their order, whatever they are: its ids are
    pairwise distinct exactly when the snapshot's are. With no snapshot,
    with one that is not well-shaped or with a storage that cannot be
    read, the store starts with an empty list. *)
Theorem distinct_ids_preserved env s id0 text0 persisted :
  (NoDup (id <$> tasks s) →
     NoDup (id <$> tasks (toggleTask id0 env s).2) ∧
     NoDup (id <$> tasks (updateTask id0 text0 env s).2) ∧
     NoDup (id <$> tasks (deleteTask id0 env s).2) ∧
     NoDup (id <$> tasks (clearCompleted env s).2)) ∧
  (let start := (useTaskStore env (boot persisted)).2 in
   (∀ data, persisted = Some data → getItem_throws env = None →
            well_shaped data →
      (λ t, Some (VString (id t))) <$> tasks start = snapshot_ids data ∧
      (NoDup (id <$> tasks start) ↔ NoDup (snapshot_ids data))) ∧
   (persisted = None ∨
    (∃ data, persisted = Some data ∧ ¬ well_shaped data) ∨
    (∃ error, getItem_throws env = Some error) →
    tasks start = [])).
Proof.
  split.
  - intros Hdistinct.
    rewrite toggleTask_run, updateTask_run, deleteTask_run, clearCompleted_run.
    assert (NoDup (id <$> filter (λ t, negb (completed t) = true) (tasks s)))
      as Hclear.
    { eapply sublist_NoDup; [done|]. by apply fmap_sublist, sublist_filter. }
    destruct (list_find _ (tasks s)) as [[i task]|] eqn:Hfind.
    + apply list_find_Some in Hfind as (Hi & _ & _).
      destruct (not_string (trim text0)); cbn [snd]; rewrite ?saved_tasks;
        cbn [tasks]; rewrite ?(insert_keeps_ids _ i task) by done.
      all: repeat split; try done.
      all: rewrite list_fmap_delete; by eapply sublist_NoDup, sublist_delete.
    + destruct (not_string (trim text0)); cbn [snd]; rewrite ?saved_tasks;
        cbn [tasks]; by repeat split.
  - cbn zeta. rewrite useTaskStore_run. split.
    + intros data -> -> Hshape. cbn [stored_value].
      apply isValidTaskArray_shape in Hshape as Hvalid. rewrite Hvalid.
      destruct Hshape as (items & -> & Hall).
      cbn [is_null snd tasks snapshot_ids].
      pose proof (reads_as_ids _ _ (as_tasks_reads items Hall)) as Hids.
      split; [done|]. rewrite <- Hids.
      rewrite (list_fmap_compose id (λ x, Some (VString x))).
      assert (Inj (=) (=) (λ x : jsstring, Some (VString x))) as Hinj.
      { by intros x y [= ->]. }
      symmetry. apply (NoDup_fmap (λ x : jsstring, Some (VString x))).
    + destruct (getItem_throws env) as [error|]; [done|].
      intros [->|[(data & -> & Hshape)|[error [=]]]]; [done|].
      cbn [stored_value]. destruct (is_null data); [done|].
      destruct (isValidTaskArray data) eqn:Hvalid; [|done].
      by apply isValidTaskArray_shape in Hvalid.
Qed.

Lemma distinct_ids_preserved_witness :
  (NoDup (id <$> tasks (toggleTask (js "t2") full_env three_tasks).2) ∧
   NoDup (id <$> tasks
            (updateTask (js "t2") (js "Feed cat") full_env three_tasks).2) ∧
   NoDup (id <$> tasks (deleteTask (js "t2") full_env three_tasks).2) ∧
   NoDup (id <$> tasks (clearCompleted full_env three_tasks).2)) ∧
  (let start := (useTaskStore full_env (boot (Some twin_snapshot))).2 in
   (λ t, Some (VString (id t))) <$> tasks start =
     snapshot_ids twin_snapshot ∧
   (NoDup (id <$> tasks start) ↔ NoDup (snapshot_ids twin_snapshot))) ∧
  tasks (useTaskStore full_env (boot (Some corrupt_snapshot))).2 = [].
Proof.
  assert (well_shaped twin_snapshot) as Htwin.
  { apply isValidTaskArray_shape. reflexivity. }
  assert (¬ well_shaped corrupt_snapshot) as Hcorrupt.
  { rewrite <- isValidTaskArray_shape. by vm_compute. }
  destruct (distinct_ids_preserved full_env three_tasks (js "t2")
              (js "Feed cat") (Some twin_snapshot))
    as (Hkept & Hstart & _).
  destruct (distinct_ids_preserved full_env three_tasks (js "t2")
              (js "Feed cat") (Some corrupt_snapshot))
    as (_ & _ & Hempty).
  split; [apply Hkept; by_evaluation|]. split.
  - apply (Hstart twin_snapshot); [reflexivity|reflexivity|exact Htwin].
  - apply Hempty. right. left. by exists corrupt_snapshot.
Defined.

(** ** The walk-through of the specification, run on the model *)

Example corrupt_snapshot_is_dropped :
  ¬ well_shaped corrupt_snapshot ∧
  useTaskStore steady_env (boot (Some corrupt_snapshot)) =
    (Return tt,
     mkStore [] None [ConsoleWarn invalid_data_warning; StorageRemove]).
Proof.
  split; [|reflexivity]. rewrite <- isValidTaskArray_shape. by vm_compute.
Qed.

Example saved_snapshot_is_read_back :
  well_shaped (tasks_to_value [book; dog; milk]) ∧
  useTaskStore steady_env (boot (localStorage three_tasks)) =
    (Return tt, three_tasks).
Proof.
  split; [|reflexivity]. rewrite <- isValidTaskArray_shape. by vm_compute.
Qed.

Example no_snapshot_starts_empty :
  useTaskStore steady_env (boot None) = (Return tt, boot None) ∧
  useTaskStore steady_env (boot (Some VNull)) = (Return tt, boot (Some VNull)).
Proof. split; reflexivity. Qed.

(** Two tasks are added, the older one is toggled, and the completed one
    is cleared; the second host differs from the first in its clock and
    random text, so the two ids differ. *)
Example walk_through :
  let later := mkEnv 1700000000050 (js "0.7k2") 1700000000050 None None in
  ∃ first second s1 s2 s3 s4,
    addTask (js "Buy milk") steady_env (boot None) = (Return first, s1) ∧
    text <$> tasks s1 = [js "Buy milk"] ∧
    addTask (js "Walk dog") later s1 = (Return second, s2) ∧
    text <$> tasks s2 = [js "Walk dog"; js "Buy milk"] ∧
    toggleTask (id first) later s2 = (Return true, s3) ∧
    stats later s3 = (Return (TaskStats.mk 2 1 1), s3) ∧
    getFilteredTasks TaskFilter.pending later s3 = (Return [second], s3) ∧
    clearCompleted later s3 = (Return 1, s4) ∧
    tasks s4 = [second] ∧
    localStorage s4 = Some (tasks_to_value [second]).
Proof.
  eexists _, _, _, _, _, _.
  repeat (split; [vm_compute; reflexivity|]). vm_compute; reflexivity.
Qed.

(** * Further properties of the store *)

(** ** Writing the list and reading it back *)

Lemma saved_ok env s :
  set_throws env = None →
  saved env s =
    mkStore (tasks s) (Some (tasks_to_value (tasks s)))
      (log s ++ [StorageSet (tasks_to_value (tasks s))]).
Proof. intros Hok. run_store. by rewrite Hok. Qed.


Lemma as_task_to_value t : as_task (task_to_value t) = Some t.
Proof. by destruct t. Qed.

Lemma isValidTask_to_value t : isValidTask (task_to_value t) = true.
Proof. by destruct t. Qed.

Lemma as_tasks_to_value ts : as_tasks (tasks_to_value ts) = ts.
Proof.
  unfold tasks_to_value, as_tasks. induction ts as [|t ts IH]; [done|].
  cbn [fmap list_fmap omap list_omap]. change (list_fmap _ _ task_to_value ts)
    with (task_to_value <$> ts).
  rewrite as_task_to_value. f_equal. apply IH.
Qed.

Lemma isValidTaskArray_to_value ts : isValidTaskArray (tasks_to_value ts) = true.
Proof.
  unfold tasks_to_value, isValidTaskArray. apply every_Forall, Forall_fmap.
  apply Forall_forall. intros t _. apply isValidTask_to_value.
Qed.

Lemma reload_saved env env' s :
  set_throws env = None →
  getItem_throws env' = None →
  useTaskStore env' (boot (localStorage (saved env s))) =
    (Return tt, mkStore (tasks s) (localStorage (saved env s)) []).
Proof.
  intros Hok Hread. rewrite saved_ok by done. cbn [localStorage].
  rewrite useTaskStore_run, Hread. cbn [stored_value].
  rewrite isValidTaskArray_to_value, as_tasks_to_value. done.
Qed.


Lemma grown_twice :
  grown_from storage_works (useTaskStore steady_env (boot None)).2 twice.
Proof.
  apply grown_addTask; [by split|]. apply grown_addTask; [by split|].
  apply grown_start.
Defined.

(** X1. Take a store that started with no snapshot and has gone through
    any calls of its operations, under a storage that never throws. A
    fresh store set up from what the slot holds then starts with the very
    list the first store has in memory (same tasks, same order), leaves
    the slot alone and logs nothing. *)
Theorem persisted_list_is_read_back env0 env' s :
  storage_works env0 →
  grown_from storage_works (useTaskStore env0 (boot None)).2 s →
  getItem_throws env' = None →
  useTaskStore env' (boot (localStorage s)) =
    (Return tt, mkStore (tasks s) (localStorage s) []).
Proof.
  intros [Hread0 _] Hgrown. revert env'.
  induction Hgrown as [|env s text0 [_ Hok] _ IH
                       |env s id0 [_ Hok] _ IH
                       |env s id0 text0 [_ Hok] _ IH
                       |env s id0 [_ Hok] _ IH
                       |env s [_ Hok] _ IH]; intros env' Hread.
  - rewrite (useTaskStore_run env0), Hread0. cbn [stored_value is_null snd].
    by rewrite useTaskStore_run, Hread.
  - rewrite addTask_run. destruct (not_string _); [by apply IH|].
    cbn [snd]. rewrite saved_tasks. by apply reload_saved.
  - rewrite toggleTask_run.
    destruct (list_find _ _) as [[i task]|]; [|by apply IH].
    cbn [snd]. rewrite saved_tasks. by apply reload_saved.
  - rewrite updateTask_run.
    destruct (list_find _ _) as [[i task]|]; [|by apply IH].
    destruct (not_string _); [by apply IH|].
    cbn [snd]. rewrite saved_tasks. by apply reload_saved.
  - rewrite deleteTask_run.
    destruct (list_find _ _) as [[i task]|]; [|by apply IH].
    cbn [snd]. rewrite saved_tasks. by apply reload_saved.
  - rewrite clearCompleted_run. cbn [snd]. rewrite saved_tasks.
    by apply reload_saved.
Qed.

Lemma persisted_list_is_read_back_witness :
  useTaskStore roomy_env (boot (localStorage twice)) =
    (Return tt, mkStore (tasks twice) (localStorage twice) []).
Proof.
  apply (persisted_list_is_read_back steady_env roomy_env twice).
  - split; reflexivity.
  - exact grown_twice.
  - reflexivity.
Defined.

(** X2. When the storage takes the write, every call that succeeds
    ([addTask] returning a task, [toggleTask], [updateTask] and
    [deleteTask] returning [true], and every [clearCompleted]) leaves in
    the persisted slot the serialisation of the list as it is after the
    call. *)
Theorem successful_mutation_is_persisted env s id0 text0 :
  writes_succeed env →
  let persisted (s' : Store) :=
    localStorage s' = Some (tasks_to_value (tasks s')) in
  (∀ task s', addTask text0 env s = (Return task, s') → persisted s') ∧
  (∀ s', toggleTask id0 env s = (Return true, s') → persisted s') ∧
  (∀ s', updateTask id0 text0 env s = (Return true, s') → persisted s') ∧
  (∀ s', deleteTask id0 env s = (Return true, s') → persisted s') ∧
  persisted (clearCompleted env s).2.
Proof.
  intros Hok persisted.
  assert (Hsaved : ∀ s0, persisted (saved env s0)).
  { intros s0. unfold persisted. by rewrite saved_ok. }
  rewrite addTask_run, toggleTask_run, updateTask_run, deleteTask_run,
    clearCompleted_run.
  destruct (list_find _ (tasks s)) as [[i task]|];
    destruct (not_string (trim text0)); cbn zeta;
    repeat split; try apply Hsaved; intros; simplify_eq; apply Hsaved.
Qed.

Lemma successful_mutation_is_persisted_witness :
  let persisted (s' : Store) :=
    localStorage s' = Some (tasks_to_value (tasks s')) in
  (∀ task s', addTask (js "Feed cat") steady_env three_tasks =
                (Return task, s') → persisted s') ∧
  (∀ s', toggleTask (js "t2") steady_env three_tasks = (Return true, s') →
         persisted s') ∧
  (∀ s', updateTask (js "t2") (js "Feed cat") steady_env three_tasks =
           (Return true, s') → persisted s') ∧
  (∀ s', deleteTask (js "t2") steady_env three_tasks = (Return true, s') →
         persisted s') ∧
  persisted (clearCompleted steady_env three_tasks).2.
Proof.
  apply (successful_mutation_is_persisted steady_env three_tasks (js "t2")
           (js "Feed cat")).
  reflexivity.
Defined.



(** X4. What the storage does with a write never shows in the result of
    a call or in the list: under two hosts that agree on the clock and the
    random generator, every operation completes the same way and leaves the
    same tasks. *)
Theorem storage_outcome_is_invisible env env' s id0 text0 :
  same_clock env env' →
  ((addTask text0 env s).1 = (addTask text0 env' s).1 ∧
   tasks (addTask text0 env s).2 = tasks (addTask text0 env' s).2) ∧
  ((toggleTask id0 env s).1 = (toggleTask id0 env' s).1 ∧
   tasks (toggleTask id0 env s).2 = tasks (toggleTask id0 env' s).2) ∧
  ((updateTask id0 text0 env s).1 = (updateTask id0 text0 env' s).1 ∧
   tasks (updateTask id0 text0 env s).2 =
     tasks (updateTask id0 text0 env' s).2) ∧
  ((deleteTask id0 env s).1 = (deleteTask id0 env' s).1 ∧
   tasks (deleteTask id0 env s).2 = tasks (deleteTask id0 env' s).2) ∧
  ((clearCompleted env s).1 = (clearCompleted env' s).1 ∧
   tasks (clearCompleted env s).2 = tasks (clearCompleted env' s).2).
Proof.
  intros (Hnow & Hrandom & Hcreated).
  rewrite !addTask_run, !toggleTask_run, !updateTask_run, !deleteTask_run,
    !clearCompleted_run, Hnow, Hrandom, Hcreated.
  destruct (list_find _ (tasks s)) as [[i task]|];
    destruct (not_string (trim text0)); cbn [fst snd];
    by rewrite ?saved_tasks.
Qed.

Lemma storage_outcome_is_invisible_witness :
  ((addTask (js "Feed cat") full_env three_tasks).1 =
     (addTask (js "Feed cat") roomy_env three_tasks).1 ∧
   tasks (addTask (js "Feed cat") full_env three_tasks).2 =
     tasks (addTask (js "Feed cat") roomy_env three_tasks).2) ∧
  ((toggleTask (js "t2") full_env three_tasks).1 =
     (toggleTask (js "t2") roomy_env three_tasks).1 ∧
   tasks (toggleTask (js "t2") full_env three_tasks).2 =
     tasks (toggleTask (js "t2") roomy_env three_tasks).2) ∧
  ((updateTask (js "t2") (js "Feed cat") full_env three_tasks).1 =
     (updateTask (js "t2") (js "Feed cat") roomy_env three_tasks).1 ∧
   tasks (updateTask (js "t2") (js "Feed cat") full_env three_tasks).2 =
     tasks (updateTask (js "t2") (js "Feed cat") roomy_env three_tasks).2) ∧
  ((deleteTask (js "t2") full_env three_tasks).1 =
     (deleteTask (js "t2") roomy_env three_tasks).1 ∧
   tasks (deleteTask (js "t2") full_env three_tasks).2 =
     tasks (deleteTask (js "t2") roomy_env three_tasks).2) ∧
  ((clearCompleted full_env three_tasks).1 =
     (clearCompleted roomy_env three_tasks).1 ∧
   tasks (clearCompleted full_env three_tasks).2 =
     tasks (clearCompleted roomy_env three_tasks).2).
Proof.
  apply (storage_outcome_is_invisible full_env roomy_env three_tasks
           (js "t2") (js "Feed cat")).
  repeat split.
Defined.



(** ** Deleting and updating *)

Lemma delete_as_take_drop {A} (l : list A) i :
  delete i l = take i l ++ drop (S i) l.
Proof.
  revert i. induction l as [|x l IH]; intros [|i]; try done.
  cbn. by rewrite <- IH.
Qed.

(** X6. For an id of the list, [deleteTask] returns [true] and removes
    one task, the first that carries the id: the tasks before it and the
    tasks after it stay, in their order, and the list is one shorter. When
    the ids of the list are pairwise distinct, the id is gone from it. *)
Theorem deleteTask_removes_first env s id0 :
  id0 ∈ (id <$> tasks s) →
  ∃ i task s',
    deleteTask id0 env s = (Return true, s') ∧
    tasks s !! i = Some task ∧ id task = id0 ∧
    (∀ j other, j < i → tasks s !! j = Some other → id other ≠ id0) ∧
    tasks s' = take i (tasks s) ++ drop (S i) (tasks s) ∧
    S (length (tasks s')) = length (tasks s) ∧
    (NoDup (id <$> tasks s) → id0 ∉ (id <$> tasks s')).
Proof.
  intros (i & task & Hfind)%find_present.
  rewrite deleteTask_run, Hfind.
  apply list_find_Some in Hfind as (Hi & Hid & Hfirst).
  eexists i, task, _. split; [reflexivity|]. rewrite saved_tasks.
  cbn [tasks]. do 2 (split; [done|]). split.
  { intros j other Hj Hother. by eapply Hfirst. }
  split; [apply delete_as_take_drop|]. split.
  { rewrite length_delete by eauto. apply lookup_lt_Some in Hi. lia. }
  intros Hdistinct. rewrite list_fmap_delete.
  assert (Hid_at : (id <$> tasks s) !! i = Some id0).
  { by rewrite list_lookup_fmap, Hi, <- Hid. }
  rewrite <- (take_drop_middle _ _ _ Hid_at) in Hdistinct.
  apply NoDup_app in Hdistinct as (_ & Hfront & [Hback _]%NoDup_cons).
  rewrite delete_as_take_drop. intros [Hin|Hin]%elem_of_app.
  - by apply (Hfront id0 Hin), list_elem_of_here.
  - done.
Qed.

Lemma deleteTask_removes_first_witness :
  ∃ i task s',
    deleteTask (js "t2") steady_env three_tasks = (Return true, s') ∧
    tasks three_tasks !! i = Some task ∧ id task = js "t2" ∧
    (∀ j other, j < i → tasks three_tasks !! j = Some other →
                id other ≠ js "t2") ∧
    tasks s' = take i (tasks three_tasks) ++ drop (S i) (tasks three_tasks) ∧
    S (length (tasks s')) = length (tasks three_tasks) ∧
    (NoDup (id <$> tasks three_tasks) → js "t2" ∉ (id <$> tasks s')).
Proof.
  apply (deleteTask_removes_first steady_env three_tasks (js "t2")).
  by_evaluation.
Defined.

(** X7. For an id of the list and a text that is not empty once trimmed,
    [updateTask] returns [true] and gives the trimmed text to one task, the
    first that carries the id (no task before it does); its [id],
    [completed] and [createdAt], every other position of the list, the
    order of the ids and the statistics stay as they were. *)
Theorem updateTask_replaces_text env env' s id0 text0 :
  id0 ∈ (id <$> tasks s) →
  trim text0 ≠ [] →
  ∃ i task s',
    updateTask id0 text0 env s = (Return true, s') ∧
    tasks s !! i = Some task ∧ id task = id0 ∧
    (∀ j other, j < i → tasks s !! j = Some other → id other ≠ id0) ∧
    tasks s' !! i =
      Some (mkTask (id task) (trim text0) (completed task) (createdAt task)) ∧
    (∀ j, j ≠ i → tasks s' !! j = tasks s !! j) ∧
    id <$> tasks s' = id <$> tasks s ∧
    (stats env' s').1 = (stats env' s).1.
Proof.
  intros (i & task & Hfind)%find_present Hfull%not_string_false.
  rewrite updateTask_run, Hfind, Hfull.
  apply list_find_Some in Hfind as (Hi & Hid & Hfirst).
  eexists i, task, _. split; [reflexivity|]. rewrite !stats_run, saved_tasks.
  cbn [tasks fst]. do 2 (split; [done|]).
  split. { intros j other Hj Hother. by eapply Hfirst. }
  split. { apply list_lookup_insert_eq. by eapply lookup_lt_Some. }
  split. { intros j Hj. by apply list_lookup_insert_ne. }
  split; [by apply (insert_keeps_ids _ i task)|].
  rewrite length_insert, !(length_filter_count completed),
    !(length_filter_count (λ t, negb (completed t))).
  pose proof (count_tasks_insert completed (tasks s) i task
    (mkTask (id task) (trim text0) (completed task) (createdAt task)) Hi)
    as Hdone.
  pose proof (count_tasks_insert (λ t, negb (completed t)) (tasks s) i task
    (mkTask (id task) (trim text0) (completed task) (createdAt task)) Hi)
    as Hpending.
  cbn [completed] in Hdone, Hpending.
  do 2 f_equal; lia.
Qed.

Lemma updateTask_replaces_text_witness :
  ∃ i task s',
    updateTask (js "t2") (js "  Feed cat ") full_env three_tasks =
      (Return true, s') ∧
    tasks three_tasks !! i = Some task ∧ id task = js "t2" ∧
    (∀ j other, j < i → tasks three_tasks !! j = Some other →
                id other ≠ js "t2") ∧
    tasks s' !! i =
      Some (mkTask (id task) (trim (js "  Feed cat ")) (completed task)
              (createdAt task)) ∧
    (∀ j, j ≠ i → tasks s' !! j = tasks three_tasks !! j) ∧
    id <$> tasks s' = id <$> tasks three_tasks ∧
    (stats steady_env s').1 = (stats steady_env three_tasks).1.
Proof.
  apply (updateTask_replaces_text full_env steady_env three_tasks (js "t2")
           (js "  Feed cat ")).
  - by_evaluation.
  - vm_compute. discriminate.
Defined.

(** ** Calls in sequence *)

Lemma find_after_insert (ts : list Task) id0 i task task' :
  list_find (λ t, id t = id0) ts = Some (i, task) →
  id task' = id0 →
  list_find (λ t, id t = id0) (<[i := task']> ts) = Some (i, task').
Proof.
  intros (Hi & Hid & Hfirst)%list_find_Some Hid'. apply list_find_Some.
  split. { apply list_lookup_insert_eq. by eapply lookup_lt_Some. }
  split; [done|]. intros j other Hother Hj.
  rewrite list_lookup_insert_ne in Hother by lia. by eapply Hfirst.
Qed.

(** X8. Toggling the same id twice in a row gives the list back as it
    was (both calls return [true]); when the id is not in the list, both
    calls return [false] and the list never changes. *)
Theorem toggleTask_twice env env' s id0 :
  ∃ found s' s'',
    toggleTask id0 env s = (Return found, s') ∧
    toggleTask id0 env' s' = (Return found, s'') ∧
    (found = true ↔ id0 ∈ (id <$> tasks s)) ∧
    tasks s'' = tasks s.
Proof.
  rewrite toggleTask_run.
  destruct (list_find _ (tasks s)) as [[i task]|] eqn:Hfind.
  - pose proof Hfind as (Hi & Hid & _)%list_find_Some.
    eexists true, _, _. split; [reflexivity|].
    rewrite toggleTask_run, saved_tasks. cbn [tasks].
    rewrite (find_after_insert _ id0 i task
               (mkTask (id task) (text task) (negb (completed task))
                  (createdAt task)) Hfind Hid).
    split; [reflexivity|]. rewrite saved_tasks.
    cbn [tasks id text completed createdAt]. split.
    { split; [intros _|done]. rewrite <- Hid.
      by eapply list_elem_of_fmap_2, list_elem_of_lookup_2. }
    rewrite list_insert_insert_eq, negb_involutive.
    apply list_insert_id. by destruct task.
  - eexists false, _, _. split; [reflexivity|].
    rewrite toggleTask_run. cbn [tasks]. rewrite Hfind.
    split; [reflexivity|]. split; [|done].
    split; [done|]. intros (i & task & Hfound)%find_present. congruence.
Qed.

(** X9. Deleting the id that [addTask] has just returned undoes the
    addition: the call returns [true] and the list is the one before
    [addTask], even when an older task carries the same id. *)
Theorem addTask_then_deleteTask env env' s text0 :
  trim text0 ≠ [] →
  ∃ newTask s' s'',
    addTask text0 env s = (Return newTask, s') ∧
    deleteTask (id newTask) env' s' = (Return true, s'') ∧
    tasks s'' = tasks s.
Proof.
  intros Hfull%not_string_false. rewrite addTask_run, Hfull.
  eexists _, _, _. split; [reflexivity|].
  rewrite deleteTask_run, saved_tasks. cbn [tasks id list_find].
  rewrite decide_True by done. cbn [fmap option_fmap option_map].
  split; [reflexivity|]. by rewrite saved_tasks.
Qed.

Lemma addTask_then_deleteTask_witness :
  ∃ newTask s' s'',
    addTask (js "Buy milk") steady_env once = (Return newTask, s') ∧
    deleteTask (id newTask) full_env s' = (Return true, s'') ∧
    tasks s'' = tasks once.
Proof.
  apply (addTask_then_deleteTask steady_env full_env once (js "Buy milk")).
  vm_compute. discriminate.
Defined.

(** X10. The three figures of [stats] always fit together, and they are
    the lengths of the three views of [getFilteredTasks]: the total is the
    sum of completed and pending, and each figure counts the tasks its
    view shows. *)
Theorem stats_match_views env s :
  ∃ st everything finished waiting,
    stats env s = (Return st, s) ∧
    getFilteredTasks TaskFilter.all env s = (Return everything, s) ∧
    getFilteredTasks TaskFilter.completed env s = (Return finished, s) ∧
    getFilteredTasks TaskFilter.pending env s = (Return waiting, s) ∧
    TaskStats.total st = TaskStats.completed st + TaskStats.pending st ∧
    TaskStats.total st = length everything ∧
    TaskStats.completed st = length finished ∧
    TaskStats.pending st = length waiting ∧
    (∀ t, t ∈ everything ↔ t ∈ finished ∨ t ∈ waiting) ∧
    (∀ t, ¬ (t ∈ finished ∧ t ∈ waiting)).
Proof.
  rewrite stats_run. eexists _, _, _, _.
  do 4 (split; [reflexivity|]).
  cbn [TaskStats.total TaskStats.completed TaskStats.pending].
  split.
  { rewrite (length_filter_count completed),
      (length_filter_count (λ t, negb (completed t))).
    by rewrite count_tasks_split. }
  do 3 (split; [done|]). split.
  - intros t. rewrite !list_elem_of_filter, negb_true_iff.
    destruct (completed t); intuition congruence.
  - intros t. rewrite !list_elem_of_filter, negb_true_iff.
    intros [[-> _] [? _]]. done.
Qed.

(** X11. Right after [clearCompleted], [stats] reports no completed task,
    as many pending tasks as before, and a total equal to that number. *)
Theorem clearCompleted_then_stats env env' s :
  ∃ before after s',
    stats env' s = (Return before, s) ∧
    (clearCompleted env s).2 = s' ∧
    stats env' s' = (Return after, s') ∧
    TaskStats.completed after = 0 ∧
    TaskStats.pending after = TaskStats.pending before ∧
    TaskStats.total after = TaskStats.pending before.
Proof.
  rewrite clearCompleted_run. cbn [snd]. eexists _, _, _.
  rewrite !stats_run. do 3 (split; [reflexivity|]). rewrite saved_tasks.
  cbn [tasks TaskStats.total TaskStats.completed TaskStats.pending].
  rewrite no_completed_left, filter_pending_twice. done.
Qed.

(** ** Texts stay trimmed *)

Lemma trimStart_cases s :
  trimStart s = [] ∨ ∃ c r, trimStart s = c :: r ∧ isWhiteSpace c = false.
Proof.
  induction s as [|c s IH]; [by left|]. cbn [trimStart].
  destruct (isWhiteSpace c) eqn:Hc; [done|]. right. eauto.
Qed.

Lemma trimStart_fixed c r :
  isWhiteSpace c = false → trimStart (c :: r) = c :: r.
Proof. intros Hc. cbn [trimStart]. by rewrite Hc. Qed.

Lemma trimStart_app l r :
  trimStart l ≠ [] → trimStart (l ++ r) = trimStart l ++ r.
Proof.
  induction l as [|c l IH]; [done|]. cbn [trimStart app].
  by destruct (isWhiteSpace c).
Qed.

Lemma trimStart_app_blank l r :
  trimStart l = [] → trimStart (l ++ r) = trimStart r.
Proof.
  induction l as [|c l IH]; [done|]. cbn [trimStart app].
  by destruct (isWhiteSpace c).
Qed.

(** A trimmed string is empty, or starts and ends with a character that
    is no blank. *)
Lemma trim_cases s :
  trim s = [] ∨
  ∃ c r d r', trim s = c :: r ∧ isWhiteSpace c = false ∧
              reverse (trim s) = d :: r' ∧ isWhiteSpace d = false.
Proof.
  unfold trim, trimEnd.
  destruct (trimStart_cases s) as [->|(c & r & -> & Hc)]; [by left|].
  right. rewrite reverse_involutive, reverse_cons.
  destruct (trimStart_cases (reverse r)) as [Hblank|(d & r' & Hd & Hd')].
  - rewrite trimStart_app_blank, trimStart_fixed by done.
    exists c, [], c, []. by rewrite reverse_singleton.
  - rewrite trimStart_app, Hd by (rewrite Hd; done).
    change ((d :: r') ++ [c]) with (d :: (r' ++ [c])).
    rewrite reverse_cons, reverse_snoc. cbn [app]. eauto 10.
Qed.

Lemma trim_idempotent s : trim (trim s) = trim s.
Proof.
  destruct (trim_cases s) as [->|(c & r & d & r' & Hs & Hc & Hrev & Hd)];
    [done|].
  unfold trim at 1, trimEnd. rewrite Hs, trimStart_fixed, <- Hs by done.
  rewrite Hrev, trimStart_fixed, <- Hrev by done. apply reverse_involutive.
Qed.

(** X12. If every text of the list is non-empty and free of blanks at
    both ends, this is still so after [addTask], [updateTask],
    [toggleTask], [deleteTask] and [clearCompleted]: the two calls that
    store a text store it trimmed and refuse it when nothing is left. *)
Theorem texts_stay_tidy env s id0 text0 :
  tidy_texts (tasks s) →
  tidy_texts (tasks (addTask text0 env s).2) ∧
  tidy_texts (tasks (updateTask id0 text0 env s).2) ∧
  tidy_texts (tasks (toggleTask id0 env s).2) ∧
  tidy_texts (tasks (deleteTask id0 env s).2) ∧
  tidy_texts (tasks (clearCompleted env s).2).
Proof.
  unfold tidy_texts. intros Htidy.
  rewrite addTask_run, updateTask_run, toggleTask_run, deleteTask_run,
    clearCompleted_run.
  assert (Hclear : Forall (λ t, text t ≠ [] ∧ trim (text t) = text t)
                     (filter (λ t, negb (completed t) = true) (tasks s))).
  { apply Forall_forall. intros t [_ Ht]%list_elem_of_filter.
    by eapply Forall_forall in Htidy. }
  destruct (list_find _ (tasks s)) as [[i task]|] eqn:Hfind;
    destruct (not_string (trim text0)) eqn:Htext;
    cbn [snd]; rewrite ?saved_tasks; cbn [tasks];
    repeat split; try done; try by apply Forall_delete.
  all: try (apply Forall_cons; split; [|done]; cbn [text];
            apply not_string_false in Htext; split; [done|];
            apply trim_idempotent).
  all: apply list_find_Some in Hfind as (Hi & _ & _).
  all: apply Forall_insert; [done|]; cbn [text].
  all: try (apply not_string_false in Htext; split; [done|];
            apply trim_idempotent).
  all: by eapply Forall_lookup_1 in Htidy.
Qed.

Lemma texts_stay_tidy_witness :
  tidy_texts (tasks (addTask (js "  Feed cat ") full_env three_tasks).2) ∧
  tidy_texts
    (tasks (updateTask (js "t2") (js " Feed cat  ") full_env three_tasks).2) ∧
  tidy_texts (tasks (toggleTask (js "t2") full_env three_tasks).2) ∧
  tidy_texts (tasks (deleteTask (js "t2") full_env three_tasks).2) ∧
  tidy_texts (tasks (clearCompleted full_env three_tasks).2).
Proof.
  assert (Htidy : tidy_texts (tasks three_tasks)).
  { repeat constructor; vm_compute; discriminate. }
  destruct (texts_stay_tidy full_env three_tasks (js "t2") (js "  Feed cat ")
              Htidy) as (Hadd & _ & Htoggle & Hdelete & Hclear).
  destruct (texts_stay_tidy full_env three_tasks (js "t2") (js " Feed cat  ")
              Htidy) as (_ & Hupdate & _).
  repeat split; try apply Hadd; try apply Hupdate; try apply Htoggle;
    try apply Hdelete; apply Hclear.
Defined.

(** ** The ids that [generateId] builds *)

Lemma js_inj a b : js a = js b → a = b.
Proof.
  unfold js. intros Heq.
  rewrite <- (string_of_list_ascii_of_string a),
    <- (string_of_list_ascii_of_string b). f_equal.
  revert Heq. generalize (list_ascii_of_string a) (list_ascii_of_string b).
  induction l as [|x l IH]; intros [|y l']; try done.
  cbn. intros [= Hxy Hrest]. f_equal; [|by apply IH].
  by rewrite <- (ascii_N_embedding x), <- (ascii_N_embedding y), Hxy.
Qed.

Lemma number_to_string_inj m n :
  number_to_string m = number_to_string n → m = n.
Proof.
  intros Heq%js_inj. apply DecimalZ.to_int_inj.
  assert (Hparse : ∀ z, NilZero.int_of_string
                          (NilZero.string_of_int (Z.to_int z))
                        = Some (Z.to_int z)).
  { intros z. apply NilZero.isi; destruct z; try done; cbn.
    all: intros [= Hnil]; by apply Unsigned.to_uint_nonnil in Hnil. }
  pose proof (Hparse m) as Hm. rewrite Heq, Hparse in Hm. congruence.
Qed.

(** X13. Two ids built by [generateId] are the same string exactly when
    the clock read the same millisecond and the (at most seven) characters
    kept from the random text are the same, provided these characters hold
    no hyphen, as is the case for digits of base 36. *)
Theorem generateId_collides_only_on_same_reading env env' s s' :
  hyphen_free (substring 2 9 (random_base36 env)) →
  hyphen_free (substring 2 9 (random_base36 env')) →
  (generateId env s).1 = (generateId env' s').1 ↔
  now_generateId env = now_generateId env' ∧
  substring 2 9 (random_base36 env) = substring 2 9 (random_base36 env').
Proof.
  intros Hfree Hfree'. unfold generateId, bind, ask, ret. cbn [fst]. split.
  - intros Hsame.
    assert (js "task-" ++ number_to_string (now_generateId env) ++
              js "-" ++ substring 2 9 (random_base36 env) =
            js "task-" ++ number_to_string (now_generateId env') ++
              js "-" ++ substring 2 9 (random_base36 env')) as Heq
      by congruence.
    apply app_inv_head in Heq.
    change (js "-") with [hyphen] in Heq. cbn [app] in Heq.
    apply not_elem_of_app_cons_inv_r in Heq as (Hnow & _ & Hsuffix);
      [|done..].
    split; [|done]. by apply number_to_string_inj.
  - by intros [-> ->].
Qed.

Lemma generateId_collides_only_on_same_reading_witness :
  (generateId steady_env three_tasks).1 = (generateId full_env once).1 ↔
  now_generateId steady_env = now_generateId full_env ∧
  substring 2 9 (random_base36 steady_env) =
    substring 2 9 (random_base36 full_env).
Proof.
  apply (generateId_collides_only_on_same_reading steady_env full_env
           three_tasks once); by_evaluation.
Defined.

(** ** What the validation does not look at *)

Lemma get_prop_cons key value props key' :
  get_prop (VObject ((key, value) :: props)) key' =
  if decide (key = key') then Some value else get_prop (VObject props) key'.
Proof.
  cbn [get_prop list_find fst]. case_decide; [done|].
  by destruct (list_find _ props) as [[? [? ?]]|].
Qed.

Lemma get_prop_other key value front back key' :
  key ≠ key' →
  get_prop (VObject (front ++ (key, value) :: back)) key' =
  get_prop (VObject (front ++ back)) key'.
Proof.
  intros Hother. induction front as [|[k v] front IH].
  - cbn [app]. by rewrite get_prop_cons, decide_False.
  - cbn [app]. rewrite !get_prop_cons. by case_decide.
Qed.

(** X14. A property under any other name than [id], [text], [completed]
    and [createdAt] does not count in the validation: wherever it stands in
    an element, the element passes or fails the check as it would without
    it, and so does every array that holds the element. *)
Theorem isValidTask_ignores_other_properties key value front back :
  key ∉ [js "id"; js "text"; js "completed"; js "createdAt"] →
  isValidTask (VObject (front ++ (key, value) :: back)) =
    isValidTask (VObject (front ++ back)) ∧
  ∀ before after,
    isValidTaskArray
      (VArray (before ++ VObject (front ++ (key, value) :: back) :: after)) =
    isValidTaskArray (VArray (before ++ VObject (front ++ back) :: after)).
Proof.
  intros Hother.
  assert (isValidTask (VObject (front ++ (key, value) :: back)) =
          isValidTask (VObject (front ++ back))) as Hsame.
  { unfold isValidTask.
    rewrite !(get_prop_other key value front back); [done|..].
    all: intros ->; apply Hother.
    all: repeat first [apply list_elem_of_here | apply list_elem_of_further]. }
  split; [done|]. intros before after. cbn [isValidTaskArray].
  rewrite !forallb_app. cbn [forallb]. by rewrite Hsame.
Qed.

Lemma isValidTask_ignores_other_properties_witness :
  isValidTask
    (VObject ([(js "id", VString (js "t1"))] ++
              (js "priority", VNumber 3) ::
              [(js "text", VString (js "Buy milk"));
               (js "completed", VBool false); (js "createdAt", VNumber 10)]))
  = isValidTask
      (VObject ([(js "id", VString (js "t1"))] ++
                [(js "text", VString (js "Buy milk"));
                 (js "completed", VBool false); (js "createdAt", VNumber 10)]))
  ∧
  ∀ before after,
    isValidTaskArray
      (VArray (before ++
               VObject ([(js "id", VString (js "t1"))] ++
                        (js "priority", VNumber 3) ::
                        [(js "text", VString (js "Buy milk"));
                         (js "completed", VBool false);
                         (js "createdAt", VNumber 10)]) :: after)) =
    isValidTaskArray
      (VArray (before ++
               VObject ([(js "id", VString (js "t1"))] ++
                        [(js "text", VString (js "Buy milk"));
                         (js "completed", VBool false);
                         (js "createdAt", VNumber 10)]) :: after)).
Proof.
  apply (isValidTask_ignores_other_properties (js "priority") (VNumber 3)).
  by_evaluation.
Defined.

(** ** The input form and the page *)

(** X15. [handleSubmit] sends nothing for an input that is blank: it
    leaves the field as it is and warns. For any other input it sends the
    trimmed text, empties the field and announces the addition; the text
    it sends is one [addTask] accepts and stores as it is, so the page's
    [handleAddTask] completes without an exception. *)
Theorem handleSubmit_sends_what_addTask_accepts taskText0 env s :
  let submission := handleSubmit taskText0 in
  match emitted submission with
  | None =>
      trim taskText0 = [] ∧
      taskText submission = taskText0 ∧
      type (notified submission) = js "warning"
  | Some text1 =>
      text1 = trim taskText0 ∧ text1 ≠ [] ∧
      taskText submission = [] ∧
      type (notified submission) = js "positive" ∧
      ∃ task s',
        addTask text1 env s = (Return task, s') ∧
        text task = text1 ∧
        tasks s' = task :: tasks s ∧
        handleAddTask text1 env s = (Return tt, s')
  end.
Proof.
  unfold handleSubmit. cbn zeta.
  destruct (not_string (trim taskText0)) eqn:Htext; cbn [emitted].
  - by apply not_string_true in Htext.
  - apply not_string_false in Htext as Hfull. do 4 (split; [done|]).
    unfold handleAddTask, bind. rewrite addTask_run, trim_idempotent, Htext.
    eexists _, _. split; [reflexivity|]. by rewrite saved_tasks.
Qed.

(** X16. [handleClearCompleted] never changes the store. It opens no
    dialog when no task is completed, which is exactly when the statistics
    panel hides its button ([hasCompletedTasks]); otherwise the dialog
    names the number of completed tasks, saying "task" for one and "tasks"
    for more. *)
Theorem handleClearCompleted_asks_when_needed env s :
  ∃ st asked,
    stats env s = (Return st, s) ∧
    handleClearCompleted env s = (Return asked, s) ∧
    (asked = None ↔ TaskStats.completed st = 0) ∧
    (asked = None ↔ hasCompletedTasks st = false) ∧
    ∀ dialog onOk, asked = Some (dialog, onOk) →
      Dialog.message dialog =
        js "Remove all " ++
        number_to_string (Z.of_nat (TaskStats.completed st)) ++
        (if decide (TaskStats.completed st = 1)
         then js " completed task?" else js " completed tasks?").
Proof.
  unfold handleClearCompleted, bind. rewrite stats_run. cbn zeta.
  set (k := length (filter _ (tasks s))).
  cbn [TaskStats.completed]. fold k.
  destruct (k =? 0) eqn:Hzero.
  - apply Nat.eqb_eq in Hzero. eexists _, None.
    do 2 (split; [reflexivity|]). unfold hasCompletedTasks.
    cbn [TaskStats.completed]. fold k. rewrite Hzero. done.
  - apply Nat.eqb_neq in Hzero. eexists _, (Some _).
    do 2 (split; [reflexivity|]). unfold hasCompletedTasks.
    cbn [TaskStats.completed]. fold k.
    split; [done|]. split.
    { split; [done|]. intros Hlt%Nat.ltb_ge. lia. }
    intros dialog onOk [= <- _]. cbn [Dialog.message]. do 2 f_equal.
    case_decide as Hone.
    + rewrite Hone. done.
    + destruct (1 <? k) eqn:Hmany; [done|].
      apply Nat.ltb_ge in Hmany. lia.
Qed.

(** X17. Once the user confirms the dialog of [handleClearCompleted],
    whatever the store holds by then, the completed tasks are cleared as by
    [clearCompleted], the notification "Completed tasks cleared" follows,
    and asking again opens no dialog. *)
Theorem clearing_confirmed env env1 env2 s s0 dialog onOk :
  handleClearCompleted env s = (Return (Some (dialog, onOk)), s) →
  ∃ removed s1 s2,
    clearCompleted env1 s0 = (Return removed, s1) ∧
    onOk env1 s0 = (Return tt, s2) ∧
    tasks s2 = tasks s1 ∧
    localStorage s2 = localStorage s1 ∧
    log s2 = log s1 ++
             [NotifyCreate
                (mkNotification (js "info") (js "Completed tasks cleared")
                   (js "delete_sweep"))] ∧
    handleClearCompleted env2 s2 = (Return None, s2).
Proof.
  unfold handleClearCompleted at 1, bind. rewrite stats_run. cbn zeta.
  destruct (_ =? 0); [done|]. intros [= _ <-].
  unfold bind. rewrite clearCompleted_run. eexists _, _, _.
  do 2 (split; [reflexivity|]). do 3 (split; [reflexivity|]).
  unfold handleClearCompleted, bind. rewrite stats_run.
  cbn [TaskStats.completed tasks]. rewrite saved_tasks. cbn [tasks].
  by rewrite no_completed_left.
Qed.

Lemma clearing_confirmed_witness :
  ∃ dialog onOk removed s1 s2,
    handleClearCompleted steady_env three_tasks =
      (Return (Some (dialog, onOk)), three_tasks) ∧
    Dialog.message dialog = js "Remove all 2 completed tasks?" ∧
    clearCompleted full_env three_tasks = (Return removed, s1) ∧
    onOk full_env three_tasks = (Return tt, s2) ∧
    tasks s2 = tasks s1 ∧
    localStorage s2 = localStorage s1 ∧
    log s2 = log s1 ++
             [NotifyCreate
                (mkNotification (js "info") (js "Completed tasks cleared")
                   (js "delete_sweep"))] ∧
    handleClearCompleted steady_env s2 = (Return None, s2).
Proof.
  assert (∃ dialog onOk,
            handleClearCompleted steady_env three_tasks =
              (Return (Some (dialog, onOk)), three_tasks) ∧
            Dialog.message dialog = js "Remove all 2 completed tasks?")
    as (dialog & onOk & Hasked & Hmessage).
  { eexists _, _. split; [lazy; reflexivity|]. vm_compute. reflexivity. }
  destruct (clearing_confirmed steady_env full_env steady_env three_tasks
              three_tasks dialog onOk Hasked) as (removed & s1 & s2 & Hrest).
  exists dialog, onOk, removed, s1, s2.
  split; [exact Hasked|]. split; [exact Hmessage|]. exact Hrest.
Defined.

(** X18. The callback that runs when the user confirms the dialog of
    [handleDeleteTask] shows "Task deleted" after [deleteTask] whatever
    that call returned: also for an id that is not in the list, where
    [deleteTask] returns [false], warns, and removes nothing. *)
Theorem deletion_is_announced_regardless env s id0 :
  ∃ found s1,
    deleteTask id0 env s = (Return found, s1) ∧
    (found = true ↔ id0 ∈ (id <$> tasks s)) ∧
    (found = false ↔ tasks s1 = tasks s) ∧
    (handleDeleteTask id0).2 env s =
      (Return tt,
       mkStore (tasks s1) (localStorage s1)
         (log s1 ++
          [NotifyCreate
             (mkNotification (js "info") (js "Task deleted")
                (js "delete"))])).
Proof.
  unfold handleDeleteTask. cbn [snd]. unfold bind. rewrite deleteTask_run.
  destruct (list_find _ (tasks s)) as [[i task]|] eqn:Hfind.
  - apply list_find_Some in Hfind as (Hi & Hid & _).
    eexists true, _. split; [reflexivity|]. split.
    { split; [intros _|done]. rewrite <- Hid.
      by eapply list_elem_of_fmap_2, list_elem_of_lookup_2. }
    split; [|done]. rewrite saved_tasks. cbn [tasks]. split; [done|].
    intros Hsame. apply (f_equal length) in Hsame.
    rewrite length_delete in Hsame by eauto.
    apply lookup_lt_Some in Hi. lia.
  - eexists false, _. split; [reflexivity|]. split; [|done].
    split; [done|]. intros (i & task & Hfound)%find_present. congruence.
Qed.
